(** * Bugzilla4 protocol adapter: a shallow embedding of [bugzilla/bugzilla4.py]

    The adapter is Python 2 code working on dynamically typed values, some of
    which (the query dictionary, the list of requested columns, the bug
    records of a search response) are mutated in place.  The embedding keeps
    that shape:

    - a Python value [pyval] is an immutable atom ([None], a bool, an int, a
      string) or a reference [VRef l] to a mutable object of the store;
    - the store ([heap]) maps locations to objects [pyobj]: lists and
      dictionaries with string keys (the only keys XML-RPC structs have);
    - a method of the adapter is a computation in the monad [M]: it threads a
      [world] (the store and the log of remote calls issued so far) and ends
      in a value or in a raised exception; the world survives an exception,
      as mutations and remote calls already made are not undone;
    - the RPC proxy is the external collaborator: a function [proxy] from the
      remote method, its argument and the store at the time of the call to a
      raised exception or to a parsed response.  The response is data that came
      over the wire ([wire], a tree); the proxy's unmarshaller builds it out of
      fresh objects, which [unmarshal] does in the store.

    Values outside this universe (floats, dates, binary blobs, tuples) are not
    modelled; [str()] of a list or dictionary is left as the parameter
    [repr_obj]. *)

From Stdlib Require Import ZArith Lia Ascii String.
From stdpp Require Import gmap strings list fin_maps pretty.

Open Scope Z_scope.

(** ** Values, objects, exceptions *)

Abbreviation loc := positive.

Inductive pyval :=
  | VNone
  | VBool (b : bool)
  | VInt (n : Z)
  | VStr (s : string)
  | VRef (l : loc).

Inductive pyobj :=
  | OList (xs : list pyval)
  | ODict (d : gmap string pyval).

Abbreviation heap := (gmap loc pyobj).

(** The exceptions the adapter can meet.  [NeedParamError] is the adapter's
    own ([bugzilla.base.NeedParamError]); [Fault] is what the RPC proxy raises
    for a remote-side error; [SystemError] only arises from a dangling
    reference, which no Python program can build. *)
Inductive pyexn :=
  | TypeError
  | ValueError
  | KeyError (k : string)
  | AttributeError (attr : string)
  | SystemError
  | NeedParamError (msg : string)
  | Fault (code : Z) (msg : string).

#[global] Instance pyval_eq_dec : EqDecision pyval.
Proof. solve_decision. Defined.

#[global] Instance pyexn_eq_dec : EqDecision pyexn.
Proof. solve_decision. Defined.

(** ** Remote calls and the world *)

Inductive rpc_method :=
  | User_get
  | Bug_get_bugs
  | Bug_add_comment
  | Bug_search
  | Bug_fields.

(** One entry of the call log: the remote method, the argument handed to the
    proxy and the store at that moment (what the marshaller reads). *)
Record rpc_call := RpcCall {
  rpc_name : rpc_method;
  rpc_arg : pyval;
  rpc_heap : heap
}.

Record world := World {
  w_heap : heap;
  w_calls : list rpc_call
}.

(** Data as it comes over the wire: the tree an XML-RPC response parses to. *)
Unset Elimination Schemes.
Inductive wire :=
  | WNone
  | WBool (b : bool)
  | WInt (n : Z)
  | WStr (s : string)
  | WList (ws : list wire)
  | WDict (kvs : list (string * wire)).
Set Elimination Schemes.

Inductive outcome (A : Type) :=
  | Return (a : A)
  | Raise (e : pyexn).
Arguments Return {A} a.
Arguments Raise {A} e.

(** ** The state-and-exception monad *)

Definition M (A : Type) : Type := world → world * outcome A.

Definition ret {A} (a : A) : M A := λ w, (w, Return a).

Definition raise {A} (e : pyexn) : M A := λ w, (w, Raise e).

Definition bind {A B} (m : M A) (k : A → M B) : M B :=
  λ w, match m w with
       | (w', Return a) => k a w'
       | (w', Raise e) => (w', Raise e)
       end.

Notation "x <- m ;; k" := (bind m (λ x, k))
  (at level 100, m at next level, right associativity,
   format "'[v' x  <-  m  ;; '/' k ']'").
Notation "m >> k" := (bind m (λ _, k))
  (at level 100, k at level 200, right associativity, only parsing).

Definition lift {A} (o : outcome A) : M A := λ w, (w, o).

Definition when (b : bool) (m : M unit) : M unit := if b then m else ret tt.

(** [for x in xs: body x] over the elements read from the iterable. *)
Fixpoint for_each {A} (xs : list A) (body : A → M unit) : M unit :=
  match xs with
  | [] => ret tt
  | x :: xs' => body x >> for_each xs' body
  end.

(** [[f x for x in xs]] and [map(f, xs)]. *)
Fixpoint map_m {A B} (f : A → M B) (xs : list A) : M (list B) :=
  match xs with
  | [] => ret []
  | x :: xs' => y <- f x ;; ys <- map_m f xs' ;; ret (y :: ys)
  end.

(** ** The store *)

Definition lookup_obj (l : loc) : M pyobj :=
  λ w, match w_heap w !! l with
       | Some o => (w, Return o)
       | None => (w, Raise SystemError)
       end.

Definition store (l : loc) (o : pyobj) : M unit :=
  λ w, (World (<[l := o]> (w_heap w)) (w_calls w), Return tt).

Definition alloc (o : pyobj) : M pyval :=
  λ w, let l := fresh (dom (w_heap w)) in
       (World (<[l := o]> (w_heap w)) (w_calls w), Return (VRef l)).

Definition new_list (xs : list pyval) : M pyval := alloc (OList xs).

Definition new_dict (d : gmap string pyval) : M pyval := alloc (ODict d).

(** ** Strings *)

Definition chars (s : string) : list ascii := list_ascii_of_string s.

Definition unchars (cs : list ascii) : string := string_of_list_ascii cs.

(** [s.split(sep)] for a one-character separator. *)
Fixpoint split_on (sep : ascii) (cs : list ascii) : list (list ascii) :=
  match cs with
  | [] => [[]]
  | c :: cs' =>
      if decide (c = sep) then [] :: split_on sep cs'
      else match split_on sep cs' with
           | p :: ps => (c :: p) :: ps
           | [] => [[c]]
           end
  end.

Definition str_split (sep : ascii) (s : string) : list string :=
  unchars <$> split_on sep (chars s).

(** [sep.join(pieces)]. *)
Definition str_join (sep : string) (pieces : list string) : string :=
  String.concat sep pieces.

(** [s in t] on strings: [s] occurs in [t]. *)
Definition is_substring (s t : string) : bool :=
  bool_decide (is_Some (String.index 0 s t)).

(** *** [int()] of a string, base 10 *)

Definition is_space (c : ascii) : bool :=
  bool_decide (c ∈ [" "; "009"; "010"; "011"; "012"; "013"]%char).

Definition is_digit (c : ascii) : bool :=
  bool_decide (48 ≤ nat_of_ascii c ≤ 57)%nat.

Definition digit_val (c : ascii) : Z := Z.of_nat (nat_of_ascii c) - 48.

Fixpoint lstrip (cs : list ascii) : list ascii :=
  match cs with
  | c :: cs' => if is_space c then lstrip cs' else cs
  | [] => []
  end.

Definition strip (cs : list ascii) : list ascii :=
  reverse (lstrip (reverse (lstrip cs))).

Definition parse_digits (cs : list ascii) : option Z :=
  match cs with
  | [] => None
  | _ => if forallb is_digit cs
         then Some (fold_left (λ acc c, 10 * acc + digit_val c) cs 0)
         else None
  end.

Definition parse_int (s : string) : option Z :=
  match strip (chars s) with
  | [] => None
  | c :: ds =>
      if decide (c = "+"%char) then parse_digits ds
      else if decide (c = "-"%char) then Z.opp <$> parse_digits ds
      else parse_digits (c :: ds)
  end.

(** ** Unmarshalling a response into fresh objects *)

(** Runs [f] over [xs] from left to right, threading the store. *)
Definition thread {A B} (f : A → heap → B * heap)
    : list A → heap → list B * heap :=
  fix go xs h :=
    match xs with
    | [] => ([], h)
    | x :: xs' =>
        let '(y, h1) := f x h in
        let '(ys, h2) := go xs' h1 in
        (y :: ys, h2)
    end.

(** A struct is filled member by member: a later member of the same name
    overwrites an earlier one. *)
Definition dict_of_list (kvs : list (string * pyval)) : gmap string pyval :=
  fold_left (λ d kv, <[kv.1 := kv.2]> d) kvs ∅.

Fixpoint unmarshal (t : wire) (h : heap) : pyval * heap :=
  match t with
  | WNone => (VNone, h)
  | WBool b => (VBool b, h)
  | WInt n => (VInt n, h)
  | WStr s => (VStr s, h)
  | WList ts =>
      let '(vs, h1) := thread unmarshal ts h in
      let l := fresh (dom h1) in
      (VRef l, <[l := OList vs]> h1)
  | WDict kvs =>
      let '(kvs', h1) :=
        thread (λ kt h, let '(v, h') := unmarshal kt.2 h in ((kt.1, v), h'))
               kvs h in
      let l := fresh (dom h1) in
      (VRef l, <[l := ODict (dict_of_list kvs')]> h1)
  end.

(** ** Python's built-in operations on values *)

(** [int(v)]: ints and bools convert, a string is parsed in base 10
    ([ValueError] when it is no literal), anything else is a [TypeError]. *)
Definition py_int (v : pyval) : outcome Z :=
  match v with
  | VInt n => Return n
  | VBool b => Return (Z.b2z b)
  | VStr s => match parse_int s with
              | Some n => Return n
              | None => Raise ValueError
              end
  | VNone | VRef _ => Raise TypeError
  end.

(** [type(v) is list]. *)
Definition py_is_list (v : pyval) : M bool :=
  match v with
  | VRef l => o <- lookup_obj l ;;
              ret (match o with OList _ => true | ODict _ => false end)
  | _ => ret false
  end.

(** Truth value of [v], as [if v:] takes it. *)
Definition py_bool (v : pyval) : M bool :=
  match v with
  | VNone => ret false
  | VBool b => ret b
  | VInt n => ret (negb (n =? 0))
  | VStr s => ret (negb (String.eqb s ""))
  | VRef l => o <- lookup_obj l ;;
              ret (match o with
                   | OList xs => negb (bool_decide (xs = []))
                   | ODict d => negb (bool_decide (d = ∅))
                   end)
  end.

(** [k in c] for a string [k]: a key of a dictionary, an element of a list,
    a substring of a string. *)
Definition py_contains (k : string) (c : pyval) : M bool :=
  match c with
  | VStr t => ret (is_substring k t)
  | VRef l => o <- lookup_obj l ;;
              ret (match o with
                   | OList xs => bool_decide (VStr k ∈ xs)
                   | ODict d => bool_decide (is_Some (d !! k))
                   end)
  | _ => raise TypeError
  end.

(** [c[k]] for a string [k]. *)
Definition py_getitem (c : pyval) (k : string) : M pyval :=
  match c with
  | VRef l => o <- lookup_obj l ;;
              match o with
              | ODict d => match d !! k with
                           | Some v => ret v
                           | None => raise (KeyError k)
                           end
              | OList _ => raise TypeError
              end
  | _ => raise TypeError
  end.

(** [c[k] = v] for a string [k]. *)
Definition py_setitem (c : pyval) (k : string) (v : pyval) : M unit :=
  match c with
  | VRef l => o <- lookup_obj l ;;
              match o with
              | ODict d => store l (ODict (<[k := v]> d))
              | OList _ => raise TypeError
              end
  | _ => raise TypeError
  end.

(** [del c[k]] for a string [k]. *)
Definition py_delitem (c : pyval) (k : string) : M unit :=
  match c with
  | VRef l => o <- lookup_obj l ;;
              match o with
              | ODict d => match d !! k with
                           | Some _ => store l (ODict (delete k d))
                           | None => raise (KeyError k)
                           end
              | OList _ => raise TypeError
              end
  | _ => raise TypeError
  end.

(** [len(v)]. *)
Definition py_len (v : pyval) : M Z :=
  match v with
  | VStr s => ret (Z.of_nat (String.length s))
  | VRef l => o <- lookup_obj l ;;
              ret (match o with
                   | OList xs => Z.of_nat (length xs)
                   | ODict d => Z.of_nat (size d)
                   end)
  | _ => raise TypeError
  end.

(** The elements [for x in v] visits: those of a list, the keys of a
    dictionary (in an order Python 2 leaves open), the characters of a
    string.  No loop of the adapter changes a list while it walks it. *)
Definition py_iter (v : pyval) : M (list pyval) :=
  match v with
  | VStr s => ret ((λ c, VStr (String c EmptyString)) <$> chars s)
  | VRef l => o <- lookup_obj l ;;
              ret (match o with
                   | OList xs => xs
                   | ODict d => VStr <$> (map_to_list d).*1
                   end)
  | _ => raise TypeError
  end.

(** [v.split(sep)]: only strings have the method. *)
Definition py_split (v : pyval) (sep : ascii) : M pyval :=
  match v with
  | VStr s => new_list (VStr <$> str_split sep s)
  | _ => raise (AttributeError "split")
  end.

Fixpoint remove_first (x : pyval) (xs : list pyval) : list pyval :=
  match xs with
  | [] => []
  | y :: ys => if decide (x = y) then ys else y :: remove_first x ys
  end.

(** [c.remove(x)]: only lists have the method; [ValueError] when [x] is not
    an element. *)
Definition py_list_remove (c : pyval) (x : pyval) : M unit :=
  match c with
  | VRef l => o <- lookup_obj l ;;
              match o with
              | OList xs => if bool_decide (x ∈ xs)
                            then store l (OList (remove_first x xs))
                            else raise ValueError
              | ODict _ => raise (AttributeError "remove")
              end
  | _ => raise (AttributeError "remove")
  end.

(** [c.append(x)]: only lists have the method. *)
Definition py_list_append (c : pyval) (x : pyval) : M unit :=
  match c with
  | VRef l => o <- lookup_obj l ;;
              match o with
              | OList xs => store l (OList (xs ++ [x]))
              | ODict _ => raise (AttributeError "append")
              end
  | _ => raise (AttributeError "append")
  end.

(** *** A local dictionary with arbitrary hashable keys

    [bugdict] of [_getbugs] is keyed by whatever the records carry as [id].
    It never leaves the method, so it is kept as an association list. *)

Definition py_hashable (v : pyval) : bool :=
  match v with
  | VRef _ => false
  | _ => true
  end.

(** [a == b] on hashable values: bools count as the ints 0 and 1. *)
Definition py_key_eqb (a b : pyval) : bool :=
  match a, b with
  | VNone, VNone => true
  | VStr s, VStr t => String.eqb s t
  | (VInt _ | VBool _), (VInt _ | VBool _) =>
      match py_int a, py_int b with
      | Return m, Return n => m =? n
      | _, _ => false
      end
  | _, _ => false
  end.

Fixpoint pydict_set (k v : pyval) (d : list (pyval * pyval))
    : list (pyval * pyval) :=
  match d with
  | [] => [(k, v)]
  | (k', v') :: d' =>
      if py_key_eqb k' k then (k', v) :: d' else (k', v') :: pydict_set k v d'
  end.

Fixpoint pydict_find (k : pyval) (d : list (pyval * pyval)) : option pyval :=
  match d with
  | [] => None
  | (k', v') :: d' => if py_key_eqb k' k then Some v' else pydict_find k d'
  end.

(** [dict(pairs)]: the pairs are entered from left to right. *)
Fixpoint py_dict (pairs : list (pyval * pyval)) (d : list (pyval * pyval))
    : outcome (list (pyval * pyval)) :=
  match pairs with
  | [] => Return d
  | (k, v) :: rest =>
      if py_hashable k then py_dict rest (pydict_set k v d)
      else Raise TypeError
  end.

(** [d.get(k)], with [None] for an absent key. *)
Definition pydict_get (k : pyval) (d : list (pyval * pyval)) : outcome pyval :=
  if py_hashable k then Return (default VNone (pydict_find k d))
  else Raise TypeError.

(** ** The adapter *)

Section Adapter.

(** The RPC proxy: for a remote method, the argument and the store it is
    marshalled from, a raised exception or the response as parsed data. *)
Variable proxy : rpc_method → pyval → heap → outcome wire.

(** [str()] of a list or dictionary object. *)
Variable repr_obj : heap → loc → string.

(** [self._proxy.<method>(arg)]: the call is logged, the proxy consulted, and
    a response unmarshalled into fresh objects. *)
Definition remote (m : rpc_method) (arg : pyval) : M pyval :=
  λ w, let log := w_calls w ++ [RpcCall m arg (w_heap w)] in
       match proxy m arg (w_heap w) with
       | Raise e => (World (w_heap w) log, Raise e)
       | Return t => let '(v, h') := unmarshal t (w_heap w) in
                     (World h' log, Return v)
       end.

(** [str(v)]. *)
Definition py_str (v : pyval) : M string :=
  match v with
  | VNone => ret "None"%string
  | VBool b => ret (if b then "True" else "False")%string
  | VInt n => ret (pretty n)
  | VStr s => ret s
  | VRef l => λ w, (w, Return (repr_obj (w_heap w) l))
  end.

(** ["%s%s" % (a, b)]. *)
Definition py_format2 (a b : pyval) : M string :=
  sa <- py_str a ;;
  sb <- py_str b ;;
  ret (sa +:+ sb).

(** *** [_getbugs] (lines 58-64) *)
Definition _getbugs (idlist : pyval) : M pyval :=
  xs <- py_iter idlist ;;
  ns <- map_m (λ i, lift (py_int i)) xs ;;
  idlist <- new_list (VInt <$> ns) ;;
  params <- new_dict (<["ids" := idlist]> (<["permissive" := VInt 1]> ∅)) ;;
  r <- remote Bug_get_bugs params ;;
  bugs <- py_getitem r "bugs" ;;
  bs <- py_iter bugs ;;
  pairs <- map_m (λ b, k <- py_getitem b "id" ;; ret (k, b)) bs ;;
  bugdict <- lift (py_dict pairs []) ;;
  ids <- py_iter idlist ;;
  found <- map_m (λ i, lift (pydict_get i bugdict)) ids ;;
  new_list found.

(** *** [_addcomment] (lines 94-106)

    The defaults of the signature are [private=False], [timestamp=''],
    [worktime=''], [bz_gid='']. *)
Definition _addcomment (id comment private timestamp worktime bz_gid : pyval)
    : M pyval :=
  params <- new_dict (<["id" := id]> (<["comment" := comment]>
                     (<["private" := private]> (<["work_time" := worktime]> ∅)))) ;;
  remote Bug_add_comment params.

(** *** [_getusers] (lines 108-135); the three arguments default to [None]. *)
Definition _getusers (ids names match_ : pyval) : M pyval :=
  params <- new_dict ∅ ;;
  b <- py_bool ids ;;
  when b (py_setitem params "ids" ids) >>
  b <- py_bool names ;;
  when b (py_setitem params "names" names) >>
  b <- py_bool match_ ;;
  when b (py_setitem params "match" match_) >>
  b <- py_bool params ;;
  (if negb b
   then raise (NeedParamError "_get() needs one of ids, names, or match kwarg.")
   else ret tt) >>
  remote User_get params.

(** *** [_query] (lines 137-191)

    The query is rewritten in place (lines 153-171), sent, and each bug of the
    response is patched in place (lines 176-189). *)

(** Lines 153-158: [bug_id] becomes [id]. *)
Definition query_fix_bug_id (query : pyval) : M unit :=
  b <- py_contains "bug_id" query ;;
  when b (
    v <- py_getitem query "bug_id" ;;
    is_list <- py_is_list v ;;
    (if negb is_list
     then v <- py_getitem query "bug_id" ;;
          pieces <- py_split v ","%char ;;
          py_setitem query "id" pieces
     else v <- py_getitem query "bug_id" ;;
          py_setitem query "id" v) >>
    py_delitem query "bug_id").

(** Lines 160-163: [include_fields] is set, from [column_list] if given. *)
Definition query_set_fields (query : pyval) : M unit :=
  fields <- new_list [] ;;
  py_setitem query "include_fields" fields >>
  b <- py_contains "column_list" query ;;
  when b (
    v <- py_getitem query "column_list" ;;
    py_setitem query "include_fields" v >>
    py_delitem query "column_list").

(** Lines 165-167 with [blockedby] and [blocks], lines 169-171 with [bug_id]
    and [id]: a name the service does not know is replaced in
    [include_fields]. *)
Definition query_rename_field (query : pyval) (old new : string) : M unit :=
  fields <- py_getitem query "include_fields" ;;
  b <- py_contains old fields ;;
  when b (
    fields <- py_getitem query "include_fields" ;;
    py_list_remove fields (VStr old) >>
    fields <- py_getitem query "include_fields" ;;
    py_list_append fields (VStr new)).

(** Lines 153-171. *)
Definition query_normalize (query : pyval) : M unit :=
  query_fix_bug_id query >>
  query_set_fields query >>
  query_rename_field query "blockedby" "blocks" >>
  query_rename_field query "bug_id" "id".

(** Lines 177-182: [flags] becomes a string.  [tmpstr] never leaves the loop
    and is kept as a Rocq list. *)
Definition bug_fix_flags (bug : pyval) : M unit :=
  b <- py_contains "flags" bug ;;
  when b (
    flags <- py_getitem bug "flags" ;;
    entries <- py_iter flags ;;
    tmpstr <- map_m (λ tmp, name <- py_getitem tmp "name" ;;
                            status <- py_getitem tmp "status" ;;
                            py_format2 name status) entries ;;
    py_setitem bug "flags" (VStr (str_join "," tmpstr))).

(** Lines 183-187: [blockedby] is derived from [blocks]. *)
Definition bug_fix_blocks (bug : pyval) : M unit :=
  b <- py_contains "blocks" bug ;;
  when b (
    blocks <- py_getitem bug "blocks" ;;
    n <- py_len blocks ;;
    if 0 <? n
    then blocks <- py_getitem bug "blocks" ;;
         ids <- py_iter blocks ;;
         strs <- map_m py_str ids ;;
         py_setitem bug "blockedby" (VStr (str_join "," strs))
    else py_setitem bug "blockedby" (VStr "")).

(** Lines 188-189: [id] is also shown as [bug_id]. *)
Definition bug_fix_id (bug : pyval) : M unit :=
  b <- py_contains "id" bug ;;
  when b (
    v <- py_getitem bug "id" ;;
    py_setitem bug "bug_id" v).

(** Lines 177-189: the body of the loop over the bugs of the response. *)
Definition query_fix_bug (bug : pyval) : M unit :=
  bug_fix_flags bug >>
  bug_fix_blocks bug >>
  bug_fix_id bug.

Definition _query (query : pyval) : M pyval :=
  query_normalize query >>
  ret_ <- remote Bug_search query ;;
  bugs <- py_getitem ret_ "bugs" ;;
  bs <- py_iter bugs ;;
  for_each bs query_fix_bug >>
  ret ret_.

(** *** [_getbugfields] (lines 193-198) *)
Definition _getbugfields : M pyval :=
  projection <- new_list [VStr "name"] ;;
  arg <- new_dict {["include_fields" := projection]} ;;
  r <- remote Bug_fields arg ;;
  fields <- py_getitem r "fields" ;;
  fs <- py_iter fields ;;
  names <- map_m (λ f, py_getitem f "name") fs ;;
  tmp <- new_list names ;;
  py_list_append tmp (VStr "blockedby") >>
  ret tmp.

End Adapter.

(** ** Reading a response tree *)

(** The value of the last member named [k] in a member list. *)
Definition assoc_last {A} (k : string) (kvs : list (string * A)) : option A :=
  fold_left (λ acc kv, if String.eqb kv.1 k then Some kv.2 else acc) kvs None.

(** [t[k]] on the wire. *)
Definition wire_get (k : string) (t : wire) : option wire :=
  match t with
  | WDict kvs => assoc_last k kvs
  | _ => None
  end.

(** The atom a leaf of the tree parses to. *)
Definition atom_val (t : wire) : option pyval :=
  match t with
  | WNone => Some VNone
  | WBool b => Some (VBool b)
  | WInt n => Some (VInt n)
  | WStr s => Some (VStr s)
  | WList _ | WDict _ => None
  end.

(** [str()] of an atom. *)
Definition str_atom (v : pyval) : option string :=
  match v with
  | VNone => Some "None"%string
  | VBool b => Some (if b then "True" else "False")%string
  | VInt n => Some (pretty n)
  | VStr s => Some s
  | VRef _ => None
  end.

Definition refs (vs : list pyval) : list loc :=
  omap (λ v, match v with VRef l => Some l | _ => None end) vs.

(** [parsed h t v]: in the store [h], the value [v] is the tree [t] as the
    unmarshaller builds it: leaves are atoms, a list is a list object whose
    elements are distinct objects, a struct is a dictionary object holding the
    last member of each name. *)
Unset Elimination Schemes.
Inductive parsed (h : heap) : wire → pyval → Prop :=
  | parsed_none : parsed h WNone VNone
  | parsed_bool b : parsed h (WBool b) (VBool b)
  | parsed_int n : parsed h (WInt n) (VInt n)
  | parsed_str s : parsed h (WStr s) (VStr s)
  | parsed_list ts l vs :
      h !! l = Some (OList vs) →
      Forall2 (parsed h) ts vs →
      NoDup (refs vs) →
      parsed h (WList ts) (VRef l)
  | parsed_dict kvs l d :
      h !! l = Some (ODict d) →
      (∀ k, option_Forall2 (parsed h) (assoc_last k kvs) (d !! k)) →
      parsed h (WDict kvs) (VRef l).
Set Elimination Schemes.

(** [v], if it is an object, was allocated between the stores [h] and [h']. *)
Definition allocated (h h' : heap) (v : pyval) : Prop :=
  ∀ l, v = VRef l → h !! l = None ∧ is_Some (h' !! l).

(** The response the proxy gave to the last call of the log. *)
Definition answered (proxy : rpc_method → pyval → heap → outcome wire)
    (w : world) (t : wire) : Prop :=
  ∃ call, last (w_calls w) = Some call ∧
          proxy (rpc_name call) (rpc_arg call) (rpc_heap call) = Return t.

(** ** Queries *)

(** What lines 165-167 and 169-171 do to the list of requested fields. *)
Definition replace_field (old new : string) (xs : list pyval) : list pyval :=
  if bool_decide (VStr old ∈ xs)
  then remove_first (VStr old) xs ++ [VStr new]
  else xs.

Definition rename_fields (xs : list pyval) : list pyval :=
  replace_field "bug_id" "id" (replace_field "blockedby" "blocks" xs).

(** A query whose [bug_id], if given, is a string or a list. *)
Definition bug_id_ok (h : heap) (d : gmap string pyval) : Prop :=
  match d !! "bug_id" with
  | None | Some (VStr _) => True
  | Some (VRef l) => ∃ xs, h !! l = Some (OList xs)
  | Some _ => False
  end.

(** A query whose [column_list], if given, is a list. *)
Definition columns_ok (h : heap) (d : gmap string pyval) : Prop :=
  match d !! "column_list" with
  | None => True
  | Some (VRef l) => ∃ cs, h !! l = Some (OList cs)
  | Some _ => False
  end.

(** ** Bug records of a search response *)

(** [str()] of a leaf of the response. *)
Definition wire_text (t : wire) : option string := atom_val t ≫= str_atom.

(** The text of one flag: its [name] followed by its [status]. *)
Definition flag_text (e : wire) : option string :=
  n ← wire_get "name" e; s ← wire_get "status" e;
  a ← wire_text n; b ← wire_text s; Some (a +:+ b).

(** The text of a list of flags: the flag texts joined by commas. *)
Definition flags_text (tf : wire) : option string :=
  match tf with
  | WList es => str_join "," <$> mapM flag_text es
  | _ => None
  end.

(** The text of a list of blocked bugs: their ids joined by commas. *)
Definition blocks_text (tb : wire) : option string :=
  match tb with
  | WList xs => str_join "," <$> mapM wire_text xs
  | _ => None
  end.

(** A record as the service sends it: a struct whose [flags], if present, is
    a list of structs with an atomic [name] and [status], and whose [blocks],
    if present, is a list of atoms. *)
Definition record_ok (rec : wire) : Prop :=
  (∃ kvs, rec = WDict kvs) ∧
  (∀ tf, wire_get "flags" rec = Some tf → is_Some (flags_text tf)) ∧
  (∀ tb, wire_get "blocks" rec = Some tb → is_Some (blocks_text tb)).

(** The same shapes, read in the store. *)
Definition flag_in (h : heap) (e : pyval) (s : string) : Prop :=
  ∃ le de n st a b,
    e = VRef le ∧ h !! le = Some (ODict de) ∧
    de !! "name" = Some n ∧ de !! "status" = Some st ∧
    str_atom n = Some a ∧ str_atom st = Some b ∧ s = a +:+ b.

Definition flags_in (h : heap) (f : pyval) (s : string) : Prop :=
  ∃ lf es strs,
    f = VRef lf ∧ h !! lf = Some (OList es) ∧
    Forall2 (flag_in h) es strs ∧ s = str_join "," strs.

Definition blocks_in (h : heap) (b : pyval) (s : string) : Prop :=
  ∃ lb xs strs,
    b = VRef lb ∧ h !! lb = Some (OList xs) ∧
    Forall2 (λ x s, str_atom x = Some s) xs strs ∧ s = str_join "," strs.

(** [d] with [k] set to [v], when there is a [v]. *)
Definition patch (k : string) (o : option pyval) (d : gmap string pyval)
    : gmap string pyval :=
  match o with
  | Some v => <[k := v]> d
  | None => d
  end.

(** The record [d] after lines 177-189, given the texts of its [flags] and
    [blocks] where it has them. *)
Definition patched (d : gmap string pyval) (sf sb : option string)
    : gmap string pyval :=
  patch "bug_id" (d !! "id")
    (patch "blockedby" (VStr <$> sb) (patch "flags" (VStr <$> sf) d)).

(** One bug of the response in the store: where its record is, what the
    record holds before the loop, and the texts of its [flags] and [blocks]. *)
Record bug_item := BugItem {
  bi_loc : loc;
  bi_dict : gmap string pyval;
  bi_flags : option string;
  bi_blocks : option string
}.

(** The keys the loop over the bugs writes. *)
Definition touched : list string := ["flags"; "blockedby"; "bug_id"].

(** [kept h h']: from [h] to [h'] lists are as they were and dictionaries
    differ at most at the keys the loop writes. *)
Definition kept (h h' : heap) : Prop :=
  (∀ l xs, h !! l = Some (OList xs) → h' !! l = Some (OList xs)) ∧
  (∀ l d, h !! l = Some (ODict d) →
          ∃ d', h' !! l = Some (ODict d') ∧
                ∀ k, k ∉ touched → d' !! k = d !! k).

(** ** Bug ids *)

(** A base-10 integer literal as [int()] reads it: optional blanks, an
    optional sign, one or more digits, optional blanks. *)
Definition int_literal (cs : list ascii) : Prop :=
  ∃ pre sign ds post,
    cs = pre ++ sign ++ ds ++ post ∧
    Forall (λ c, is_space c) pre ∧ Forall (λ c, is_space c) post ∧
    (sign = [] ∨ sign = ["+"%char] ∨ sign = ["-"%char]) ∧
    ds ≠ [] ∧ Forall (λ c, is_digit c) ds.

(** An integer-like id: an int, a bool, or a string holding a literal. *)
Definition int_like (v : pyval) : Prop :=
  match v with
  | VInt _ | VBool _ => True
  | VStr s => int_literal (chars s)
  | VNone | VRef _ => False
  end.

(** The record [rec] of a response carries the id [n]. *)
Definition has_id (n : Z) (rec : wire) : bool :=
  match wire_get "id" rec ≫= atom_val with
  | Some a => py_key_eqb a (VInt n)
  | None => false
  end.

(** ** Arguments of [_getusers] *)

(** A reference is valid in a store that holds its object. *)
Definition valid (h : heap) (v : pyval) : Prop :=
  ∀ l, v = VRef l → is_Some (h !! l).

(** An argument that was left out ([None]) or is empty: the empty list,
    dictionary or string, and the atoms [False] and [0]. *)
Definition empty_arg (h : heap) (v : pyval) : Prop :=
  v = VNone ∨ v = VBool false ∨ v = VInt 0 ∨ v = VStr "" ∨
  ∃ l, v = VRef l ∧ (h !! l = Some (OList []) ∨ h !! l = Some (ODict ∅)).

(** The truth value [py_bool] finds for a valid value. *)
Definition truthy (h : heap) (v : pyval) : bool :=
  match v with
  | VNone => false
  | VBool b => b
  | VInt n => negb (n =? 0)
  | VStr s => negb (String.eqb s "")
  | VRef l => match h !! l with
              | Some (OList xs) => negb (bool_decide (xs = []))
              | Some (ODict d) => negb (bool_decide (d = ∅))
              | None => false
              end
  end.

(** The dictionary [_getusers] has built when it reaches its check. *)
Definition getusers_dict (h : heap) (ids names match_ : pyval)
    : gmap string pyval :=
  (if truthy h match_ then <["match" := match_]> else id)
    ((if truthy h names then <["names" := names]> else id)
       ((if truthy h ids then <["ids" := ids]> else id) ∅)).

(** ** Sample data

    A proxy that answers every call with the same response, and small
    queries and responses on which the theorems below are run. *)

Definition sample_repr : heap → loc → string := λ _ _, "<object>"%string.

Definition sample_proxy (t : wire) : rpc_method → pyval → heap → outcome wire :=
  λ _ _ _, Return t.

Definition sample_bugs : list wire :=
  [ WDict [("id", WInt 7);
           ("flags", WList [WDict [("name", WStr "review"); ("status", WStr "+")]]);
           ("blocks", WList [WInt 5; WInt 6])];
    WDict [("id", WInt 3); ("flags", WList []); ("blocks", WList [])];
    WDict [("id", WInt 4)] ].

Definition sample_search_response : wire := WDict [("bugs", WList sample_bugs)].

Definition sample_fields : list wire :=
  [ WDict [("name", WStr "summary")]; WDict [("name", WStr "status")] ].

Definition sample_fields_response : wire :=
  WDict [("fields", WList sample_fields)].

(** A service that has a field of its own called [blockedby]. *)
Definition blockedby_fields_response : wire :=
  WDict [("fields", WList [WDict [("name", WStr "blockedby")]])].

(** [{'bug_id': '1,2,3'}] at location 1. *)
Definition sample_query_dict : gmap string pyval :=
  {["bug_id" := VStr "1,2,3"]}.

Definition sample_query_heap : heap := {[1%positive := ODict sample_query_dict]}.

(** [{'column_list': ['blockedby', 'summary']}] at location 1, its list at
    location 2. *)
Definition sample_columns_dict : gmap string pyval :=
  {["column_list" := VRef 2]}.

Definition sample_columns_heap : heap :=
  <[2%positive := OList [VStr "blockedby"; VStr "summary"]]>
    {[1%positive := ODict sample_columns_dict]}.

(** The id list [['3', 9, ' 7 ']] at location 1. *)
Definition sample_ids : list pyval := [VStr "3"; VInt 9; VStr " 7 "].

Definition sample_ids_heap : heap := {[1%positive := OList sample_ids]}.

(** The id list [[7]] at location 1. *)
Definition sample_users_heap : heap := {[1%positive := OList [VInt 7]]}.

(** ** Remote calls issued

    A computation that issues no remote call leaves the log alone. *)
Definition silent {A} (m : M A) : Prop :=
  ∀ w, w_calls (m w).1 = w_calls w.

(** ** Facts about the monad *)

Lemma bind_Return {A B} (m : M A) (k : A → M B) w w' a :
  m w = (w', Return a) → bind m k w = k a w'.
Proof. intros H. unfold bind. by rewrite H. Qed.

Lemma bind_Raise {A B} (m : M A) (k : A → M B) w w' e :
  m w = (w', Raise e) → bind m k w = (w', Raise e).
Proof. intros H. unfold bind. by rewrite H. Qed.

Lemma silent_ret {A} (a : A) : silent (ret a).
Proof. done. Qed.

Lemma silent_raise {A} e : silent (@raise A e).
Proof. done. Qed.

Lemma silent_lift {A} (o : outcome A) : silent (lift o).
Proof. done. Qed.

Lemma silent_bind {A B} (m : M A) (k : A → M B) :
  silent m → (∀ a, silent (k a)) → silent (bind m k).
Proof.
  intros Hm Hk w. unfold bind. specialize (Hm w).
  destruct (m w) as [w' [a|e]]; simpl in *; [|done].
  by rewrite Hk.
Qed.

Lemma silent_when b m : silent m → silent (when b m).
Proof. destruct b; [done | intros _; apply silent_ret]. Qed.

Lemma silent_for_each {A} (xs : list A) body :
  (∀ x, silent (body x)) → silent (for_each xs body).
Proof.
  intros Hb. induction xs as [|x xs IH]; simpl.
  - apply silent_ret.
  - apply silent_bind; [apply Hb | intros _; apply IH].
Qed.

Lemma silent_map_m {A B} (f : A → M B) xs :
  (∀ x, silent (f x)) → silent (map_m f xs).
Proof.
  intros Hf. induction xs as [|x xs IH]; simpl.
  - apply silent_ret.
  - apply silent_bind; [apply Hf | intros y].
    apply silent_bind; [apply IH | intros ys; apply silent_ret].
Qed.

Lemma silent_lookup_obj l : silent (lookup_obj l).
Proof. intros w. unfold lookup_obj. by destruct (w_heap w !! l). Qed.

Lemma silent_store l o : silent (store l o).
Proof. done. Qed.

Lemma silent_alloc o : silent (alloc o).
Proof. done. Qed.

Create HintDb silent.

#[local] Hint Resolve silent_ret silent_raise silent_lift silent_when
  silent_for_each silent_map_m silent_lookup_obj silent_store silent_alloc
  : silent.

(** Decides [silent] for code built from binds, matches and the primitives. *)
Ltac silence :=
  repeat first
    [ progress intros
    | apply silent_bind
    | apply silent_when
    | apply silent_for_each
    | apply silent_map_m
    | solve [eauto with silent]
    | match goal with
      | |- silent (match ?x with _ => _ end) => destruct x
      | |- silent (if ?b then _ else _) => destruct b
      end ].

Lemma silent_py_is_list v : silent (py_is_list v).
Proof. unfold py_is_list. silence. Qed.

Lemma silent_py_bool v : silent (py_bool v).
Proof. unfold py_bool. silence. Qed.

Lemma silent_py_contains k c : silent (py_contains k c).
Proof. unfold py_contains. silence. Qed.

Lemma silent_py_getitem c k : silent (py_getitem c k).
Proof. unfold py_getitem. silence. Qed.

Lemma silent_py_setitem c k v : silent (py_setitem c k v).
Proof. unfold py_setitem. silence. Qed.

Lemma silent_py_delitem c k : silent (py_delitem c k).
Proof. unfold py_delitem. silence. Qed.

Lemma silent_py_len v : silent (py_len v).
Proof. unfold py_len. silence. Qed.

Lemma silent_py_iter v : silent (py_iter v).
Proof. unfold py_iter. silence. Qed.

Lemma silent_py_split v sep : silent (py_split v sep).
Proof. unfold py_split, new_list. silence. Qed.

Lemma silent_py_list_remove c x : silent (py_list_remove c x).
Proof. unfold py_list_remove. silence. Qed.

Lemma silent_py_list_append c x : silent (py_list_append c x).
Proof. unfold py_list_append. silence. Qed.

Lemma silent_py_str repr_obj v : silent (py_str repr_obj v).
Proof. unfold py_str. destruct v; try apply silent_ret. done. Qed.

#[local] Hint Resolve silent_py_is_list silent_py_bool silent_py_contains
  silent_py_getitem silent_py_setitem silent_py_delitem silent_py_len
  silent_py_iter silent_py_split silent_py_list_remove silent_py_list_append
  silent_py_str : silent.

Lemma silent_query_normalize query : silent (query_normalize query).
Proof.
  unfold query_normalize, query_fix_bug_id, query_set_fields,
    query_rename_field, new_list.
  silence.
Qed.

Lemma silent_query_fix_bug repr_obj bug : silent (query_fix_bug repr_obj bug).
Proof.
  unfold query_fix_bug, bug_fix_flags, bug_fix_blocks, bug_fix_id, py_format2.
  silence.
Qed.

#[local] Hint Resolve silent_query_normalize silent_query_fix_bug : silent.

(** ** Running the primitives on a known store *)

Lemma fresh_heap_None (h : heap) : h !! fresh (dom h) = None.
Proof. apply not_elem_of_dom, is_fresh. Qed.

Lemma remote_calls proxy m a w :
  w_calls (remote proxy m a w).1 = w_calls w ++ [RpcCall m a (w_heap w)].
Proof.
  unfold remote. destruct (proxy m a (w_heap w)) as [t|e]; [|done].
  by destruct (unmarshal t (w_heap w)).
Qed.

Lemma run_lookup_obj h c l o :
  h !! l = Some o → lookup_obj l (World h c) = (World h c, Return o).
Proof. intros H. unfold lookup_obj. simpl. by rewrite H. Qed.

Lemma run_py_bool h c v :
  valid h v → py_bool v (World h c) = (World h c, Return (truthy h v)).
Proof.
  intros Hv. destruct v as [| | | |l]; try done.
  destruct (Hv l eq_refl) as [o Ho]. simpl.
  erewrite bind_Return by (by apply run_lookup_obj). by rewrite Ho.
Qed.

Lemma run_py_is_list_ref h c l o :
  h !! l = Some o →
  py_is_list (VRef l) (World h c)
  = (World h c, Return (match o with OList _ => true | ODict _ => false end)).
Proof.
  intros H. simpl. by erewrite bind_Return by (by apply run_lookup_obj).
Qed.

Lemma run_py_contains_dict h c l d k :
  h !! l = Some (ODict d) →
  py_contains k (VRef l) (World h c)
  = (World h c, Return (bool_decide (is_Some (d !! k)))).
Proof.
  intros H. simpl. by erewrite bind_Return by (by apply run_lookup_obj).
Qed.

Lemma run_py_contains_list h c l xs k :
  h !! l = Some (OList xs) →
  py_contains k (VRef l) (World h c)
  = (World h c, Return (bool_decide (VStr k ∈ xs))).
Proof.
  intros H. simpl. by erewrite bind_Return by (by apply run_lookup_obj).
Qed.

Lemma run_py_getitem h c l d k v :
  h !! l = Some (ODict d) → d !! k = Some v →
  py_getitem (VRef l) k (World h c) = (World h c, Return v).
Proof.
  intros H Hk. simpl. erewrite bind_Return by (by apply run_lookup_obj).
  simpl. by rewrite Hk.
Qed.

Lemma run_py_setitem h c l d k v :
  h !! l = Some (ODict d) →
  py_setitem (VRef l) k v (World h c)
  = (World (<[l := ODict (<[k := v]> d)]> h) c, Return tt).
Proof.
  intros H. simpl. by erewrite bind_Return by (by apply run_lookup_obj).
Qed.

Lemma run_py_delitem h c l d k :
  h !! l = Some (ODict d) → is_Some (d !! k) →
  py_delitem (VRef l) k (World h c)
  = (World (<[l := ODict (delete k d)]> h) c, Return tt).
Proof.
  intros H [v Hk]. simpl. erewrite bind_Return by (by apply run_lookup_obj).
  simpl. by rewrite Hk.
Qed.

Lemma run_py_len_list h c l xs :
  h !! l = Some (OList xs) →
  py_len (VRef l) (World h c) = (World h c, Return (Z.of_nat (length xs))).
Proof.
  intros H. simpl. by erewrite bind_Return by (by apply run_lookup_obj).
Qed.

Lemma run_py_iter_list h c l xs :
  h !! l = Some (OList xs) →
  py_iter (VRef l) (World h c) = (World h c, Return xs).
Proof.
  intros H. simpl. by erewrite bind_Return by (by apply run_lookup_obj).
Qed.

Lemma run_py_list_remove h c l xs x :
  h !! l = Some (OList xs) → x ∈ xs →
  py_list_remove (VRef l) x (World h c)
  = (World (<[l := OList (remove_first x xs)]> h) c, Return tt).
Proof.
  intros H Hx. simpl. erewrite bind_Return by (by apply run_lookup_obj).
  simpl. by rewrite bool_decide_eq_true_2.
Qed.

Lemma run_py_list_append h c l xs x :
  h !! l = Some (OList xs) →
  py_list_append (VRef l) x (World h c)
  = (World (<[l := OList (xs ++ [x])]> h) c, Return tt).
Proof.
  intros H. simpl. by erewrite bind_Return by (by apply run_lookup_obj).
Qed.

Lemma run_alloc h c o :
  alloc o (World h c)
  = (World (<[fresh (dom h) := o]> h) c, Return (VRef (fresh (dom h)))).
Proof. done. Qed.

(** ** [_addcomment] *)

(** C7.  Whatever the six arguments are, [_addcomment] hands the remote
    add-comment method a dictionary with exactly the keys [id], [comment],
    [private] and [work_time], the last one carrying the [worktime] argument;
    it has no key for the timestamp or for the group id. *)
Theorem addcomment_params proxy id comment private timestamp worktime bz_gid w :
  ∃ l d,
    w_calls (_addcomment proxy id comment private timestamp worktime bz_gid w).1
      = w_calls w
        ++ [RpcCall Bug_add_comment (VRef l) (<[l := ODict d]> (w_heap w))] ∧
    w_heap w !! l = None ∧
    dom d = {["id"; "comment"; "private"; "work_time"]} ∧
    d !! "id" = Some id ∧ d !! "comment" = Some comment ∧
    d !! "private" = Some private ∧ d !! "work_time" = Some worktime ∧
    d !! "timestamp" = None ∧ d !! "bz_gid" = None.
Proof.
  eexists _, _. split.
  { unfold _addcomment, new_dict. erewrite bind_Return by reflexivity.
    rewrite remote_calls. simpl. reflexivity. }
  split; [apply fresh_heap_None|].
  split; [rewrite !dom_insert_L, dom_empty_L; set_solver|].
  repeat split; by simplify_map_eq.
Qed.

Lemma valid_insert h l o v : valid h v → valid (<[l := o]> h) v.
Proof.
  intros Hv l' ->. destruct (Hv l' eq_refl) as [o' Ho'].
  destruct (decide (l = l')) as [->|]; simplify_map_eq; eauto.
Qed.

Lemma truthy_insert_fresh h l o v :
  valid h v → h !! l = None → truthy (<[l := o]> h) v = truthy h v.
Proof.
  intros Hv Hl. destruct v as [| | | |l']; try done. simpl.
  destruct (Hv l' eq_refl) as [o' Ho'].
  by rewrite lookup_insert_ne by congruence.
Qed.

Lemma truthy_false_iff h v : valid h v → truthy h v = false ↔ empty_arg h v.
Proof.
  intros Hv. unfold empty_arg. destruct v as [|b|n|s|l]; simpl.
  - naive_solver.
  - destruct b; naive_solver.
  - destruct (Z.eqb_spec n 0); naive_solver.
  - destruct (String.eqb_spec s ""); naive_solver.
  - destruct (Hv l eq_refl) as [o Ho]. rewrite Ho.
    destruct o as [xs|d]; simpl; case_bool_decide; naive_solver.
Qed.

Lemma run_when_setitem b h c l d k v :
  when b (py_setitem (VRef l) k v) (World (<[l := ODict d]> h) c)
  = (World (<[l := ODict ((if b then <[k := v]> else id) d)]> h) c, Return tt).
Proof.
  destruct b; [|done]. unfold when.
  erewrite run_py_setitem by apply lookup_insert_eq.
  by rewrite insert_insert_eq.
Qed.

Lemma getusers_run proxy ids names match_ h c :
  valid h ids → valid h names → valid h match_ →
  let lp := fresh (dom h) in
  _getusers proxy ids names match_ (World h c)
  = if truthy h ids || truthy h names || truthy h match_
    then remote proxy User_get (VRef lp)
           (World (<[lp := ODict (getusers_dict h ids names match_)]> h) c)
    else (World (<[lp := ODict ∅]> h) c,
          Raise (NeedParamError "_get() needs one of ids, names, or match kwarg.")).
Proof.
  intros Hi Hn Hm lp. unfold _getusers, new_dict, getusers_dict.
  pose proof (fresh_heap_None h) as Hlp. fold lp in Hlp.
  erewrite bind_Return by apply run_alloc. fold lp.
  erewrite bind_Return by (apply run_py_bool; by apply valid_insert).
  rewrite truthy_insert_fresh by done.
  erewrite bind_Return by apply run_when_setitem.
  erewrite bind_Return by (apply run_py_bool; by apply valid_insert).
  rewrite truthy_insert_fresh by done.
  erewrite bind_Return by apply run_when_setitem.
  erewrite bind_Return by (apply run_py_bool; by apply valid_insert).
  rewrite truthy_insert_fresh by done.
  erewrite bind_Return by apply run_when_setitem.
  erewrite bind_Return
    by (apply run_py_bool; intros ? [= <-]; rewrite lookup_insert_eq; eauto).
  simpl truthy. rewrite lookup_insert_eq.
  destruct (truthy h ids), (truthy h names), (truthy h match_); simpl;
    try (rewrite bool_decide_eq_false_2 by apply insert_non_empty; done).
  done.
Qed.

(** ** [_getusers] *)

(** C6.  Called with [ids], [names] and [match] all left out or empty,
    [_getusers] raises its own [NeedParamError] and the log of remote calls is
    as it was: no remote call is made.  Otherwise it makes one call, to the
    user-lookup method, and the dictionary it sends holds exactly the keys
    among [ids], [names] and [match] whose argument is not empty, each with
    that argument. *)
Theorem getusers_params proxy ids names match_ h c :
  valid h ids → valid h names → valid h match_ →
  let run := _getusers proxy ids names match_ (World h c) in
  (empty_arg h ids ∧ empty_arg h names ∧ empty_arg h match_ →
     (∃ msg, run.2 = Raise (NeedParamError msg)) ∧ w_calls run.1 = c) ∧
  (¬ (empty_arg h ids ∧ empty_arg h names ∧ empty_arg h match_) →
     ∃ l d hc,
       w_calls run.1 = c ++ [RpcCall User_get (VRef l) hc] ∧
       hc !! l = Some (ODict d) ∧
       ∀ k v, d !! k = Some v ↔
         (k = "ids" ∧ v = ids ∧ ¬ empty_arg h ids) ∨
         (k = "names" ∧ v = names ∧ ¬ empty_arg h names) ∨
         (k = "match" ∧ v = match_ ∧ ¬ empty_arg h match_)).
Proof.
  intros Hi Hn Hm run. subst run. rewrite getusers_run by done.
  pose proof (truthy_false_iff h ids Hi) as Ei.
  pose proof (truthy_false_iff h names Hn) as En.
  pose proof (truthy_false_iff h match_ Hm) as Em.
  split.
  - intros (Hei & Hen & Hem).
    apply Ei in Hei as ->. apply En in Hen as ->. apply Em in Hem as ->.
    simpl. eauto.
  - intros Hne.
    assert (truthy h ids || truthy h names || truthy h match_ = true) as ->.
    { destruct (truthy h ids), (truthy h names), (truthy h match_); try done.
      destruct Hne. naive_solver. }
    eexists _, _, _. split; [by rewrite remote_calls|].
    split; [apply lookup_insert_eq|].
    intros k v. unfold getusers_dict.
    destruct (truthy h ids), (truthy h names), (truthy h match_); simpl;
      split.
    all: try (intros Hk; repeat (apply lookup_insert_Some in Hk as [[<- <-]|[? Hk]]); naive_solver).
Qed.

(** ** Response trees and their objects *)

Lemma wire_ind (P : wire → Prop) :
  P WNone → (∀ b, P (WBool b)) → (∀ n, P (WInt n)) → (∀ s, P (WStr s)) →
  (∀ ts, Forall P ts → P (WList ts)) →
  (∀ kvs, Forall (λ kt, P kt.2) kvs → P (WDict kvs)) →
  ∀ t, P t.
Proof.
  intros HN HB HI HS HL HD. fix IH 1. intros [|b|n|s|ts|kvs].
  - exact HN.
  - apply HB.
  - apply HI.
  - apply HS.
  - apply HL. induction ts as [|t ts IHts]; constructor; [apply IH | exact IHts].
  - apply HD.
    induction kvs as [|[k t] kvs IHkvs]; constructor; [apply IH | exact IHkvs].
Qed.

Lemma fold_assoc_last {A} (k : string) (kvs : list (string * A)) acc :
  fold_left (λ acc kv, if String.eqb kv.1 k then Some kv.2 else acc) kvs acc
  = match assoc_last k kvs with Some v => Some v | None => acc end.
Proof.
  unfold assoc_last. revert acc.
  induction kvs as [|[k' v] kvs IH]; intros acc; simpl; [done|].
  rewrite (IH (if String.eqb k' k then Some v else acc)).
  rewrite (IH (if String.eqb k' k then Some v else None)).
  destruct (fold_left _ kvs None); [done|]. by destruct (String.eqb k' k).
Qed.

Lemma assoc_last_cons {A} (k k' : string) (v : A) kvs :
  assoc_last k ((k', v) :: kvs)
  = match assoc_last k kvs with
    | Some v' => Some v'
    | None => if String.eqb k' k then Some v else None
    end.
Proof. unfold assoc_last at 1. simpl. apply fold_assoc_last. Qed.

Lemma fold_insert_lookup (kvs : list (string * pyval)) (d : gmap string pyval) k :
  fold_left (λ d kv, <[kv.1 := kv.2]> d) kvs d !! k
  = match assoc_last k kvs with Some v => Some v | None => d !! k end.
Proof.
  revert d. induction kvs as [|[k' v] kvs IH]; intros d; simpl; [done|].
  rewrite IH, assoc_last_cons. destruct (assoc_last k kvs); [done|].
  destruct (String.eqb_spec k' k) as [->|]; simpl; by simplify_map_eq.
Qed.

Lemma dict_of_list_lookup kvs k : dict_of_list kvs !! k = assoc_last k kvs.
Proof.
  unfold dict_of_list. rewrite fold_insert_lookup.
  by destruct (assoc_last k kvs).
Qed.

Lemma assoc_last_elem {A} (k : string) (v : A) kvs :
  assoc_last k kvs = Some v → (k, v) ∈ kvs.
Proof.
  induction kvs as [|[k' v'] kvs IH]; [done|]. rewrite assoc_last_cons.
  destruct (assoc_last k kvs) as [v''|].
  - intros [= ->]. right. by apply IH.
  - destruct (String.eqb_spec k' k) as [->|]; [|done]. intros [= ->]. left.
Qed.

Lemma Forall2_impl_Forall {A B} (P : A → Prop) (R R' : A → B → Prop) xs ys :
  Forall P xs → Forall2 R xs ys → (∀ x y, P x → R x y → R' x y) →
  Forall2 R' xs ys.
Proof.
  intros HP HR Himp. revert HP.
  induction HR; intros HP; inversion HP; subst; constructor; auto.
Qed.

Lemma parsed_mono t : ∀ h h' v, parsed h t v → h ⊆ h' → parsed h' t v.
Proof.
  induction t as [| | | |ts IH|kvs IH] using wire_ind;
    intros h h' v Hp Hsub; inversion Hp as [| | | |? l vs Hl Hvs Hnd|? l d Hl Hd];
    subst; try constructor.
  - econstructor; [by eapply lookup_weaken | | done].
    eapply Forall2_impl_Forall; [exact IH | exact Hvs |]. simpl. eauto.
  - econstructor; [by eapply lookup_weaken |]. intros k.
    specialize (Hd k). destruct (assoc_last k kvs) as [t|] eqn:Hk;
      inversion Hd as [? v Htv|]; subst; constructor.
    apply assoc_last_elem in Hk. rewrite Forall_forall in IH.
    by apply (IH _ Hk h).
Qed.

Lemma Forall2_assoc_last {A B} (R : A → B → Prop) kvs kvs' :
  Forall2 (λ kt kv, kt.1 = kv.1 ∧ R kt.2 kv.2) kvs kvs' →
  ∀ k, option_Forall2 R (assoc_last k kvs) (assoc_last k kvs').
Proof.
  intros HF k. induction HF as [|[k1 t] [k2 v] kvs kvs' [Hk HR] _ IH];
    [constructor|]. simpl in Hk. subst k2. rewrite !assoc_last_cons.
  inversion IH; subst; [by constructor|].
  destruct (String.eqb k1 k); by constructor.
Qed.

Lemma thread_unmarshal_spec ts :
  Forall (λ t, ∀ h v h', unmarshal t h = (v, h') →
                 h ⊆ h' ∧ parsed h' t v ∧ allocated h h' v) ts →
  ∀ h vs h', thread unmarshal ts h = (vs, h') →
    h ⊆ h' ∧ Forall2 (parsed h') ts vs ∧
    (∀ l, l ∈ refs vs → h !! l = None ∧ is_Some (h' !! l)) ∧
    NoDup (refs vs).
Proof.
  induction 1 as [|t ts Ht _ IH]; intros h vs h' Hrun; simpl in Hrun.
  - injection Hrun as <- <-. split; [done|]. split; [constructor|].
    split; [|constructor]. intros l Hl. by apply elem_of_nil in Hl.
  - destruct (unmarshal t h) as [v ha] eqn:Hv.
    destruct (thread unmarshal ts ha) as [vs' hb] eqn:Hvs.
    injection Hrun as <- <-.
    destruct (Ht _ _ _ Hv) as (Hsub1 & Hp & Hal).
    destruct (IH _ _ _ Hvs) as (Hsub2 & Hps & Hfr & Hnd).
    assert (∀ l, l ∈ refs vs' → h !! l = None ∧ is_Some (hb !! l)) as Hfr'.
    { intros l Hl. destruct (Hfr l Hl) as [Hn Hs]. split; [|done].
      by eapply lookup_weaken_None. }
    split; [by etrans|]. split.
    { constructor; [by eapply parsed_mono|done]. }
    destruct v as [| | | |l]; simpl; try done.
    destruct (Hal l eq_refl) as [Hn [o Ho]]. split.
    + intros l' [->|Hl']%elem_of_cons; [|by apply Hfr'].
      split; [done|]. exists o. by eapply lookup_weaken.
    + constructor; [|done]. intros Hl. destruct (Hfr l Hl) as [Hn' _].
      congruence.
Qed.

Lemma thread_members_spec kvs :
  Forall (λ kt, ∀ h v h', unmarshal kt.2 h = (v, h') →
                  h ⊆ h' ∧ parsed h' kt.2 v ∧ allocated h h' v) kvs →
  ∀ h kvs' h',
    thread (λ (kt : string * wire) h,
              let '(v, h') := unmarshal kt.2 h in ((kt.1, v), h')) kvs h
    = (kvs', h') →
    h ⊆ h' ∧ Forall2 (λ kt kv, kt.1 = kv.1 ∧ parsed h' kt.2 kv.2) kvs kvs'.
Proof.
  induction 1 as [|[k t] kvs Ht _ IH]; intros h kvs' h' Hrun; simpl in Hrun.
  - injection Hrun as <- <-. split; [done|constructor].
  - destruct (unmarshal t h) as [v ha] eqn:Hv.
    destruct (thread _ kvs ha) as [kvs'' hb] eqn:Hkvs.
    injection Hrun as <- <-.
    destruct (Ht _ _ _ Hv) as (Hsub1 & Hp & _).
    destruct (IH _ _ _ Hkvs) as (Hsub2 & Hps).
    split; [by etrans|]. constructor; [|done].
    split; [done|]. by eapply parsed_mono.
Qed.

Lemma unmarshal_spec t :
  ∀ h v h', unmarshal t h = (v, h') →
    h ⊆ h' ∧ parsed h' t v ∧ allocated h h' v.
Proof.
  induction t as [| | | |ts IH|kvs IH] using wire_ind; intros h v h' Hrun;
    simpl in Hrun.
  1-4: injection Hrun as <- <-; repeat split; (done || constructor).
  - destruct (thread unmarshal ts h) as [vs h1] eqn:Hvs.
    injection Hrun as <- <-.
    destruct (thread_unmarshal_spec ts IH _ _ _ Hvs) as (Hsub & Hps & _ & Hnd).
    pose proof (fresh_heap_None h1) as Hl.
    assert (h1 ⊆ <[fresh (dom h1) := OList vs]> h1) as Hsub'
      by by apply insert_subseteq.
    split; [by etrans|]. split.
    + econstructor; [apply lookup_insert_eq | | done].
      eapply Forall2_impl; [exact Hps|]. intros. by eapply parsed_mono.
    + intros l [= <-]. split; [by eapply lookup_weaken_None|].
      rewrite lookup_insert_eq. eauto.
  - destruct (thread _ kvs h) as [kvs' h1] eqn:Hkvs.
    injection Hrun as <- <-.
    destruct (thread_members_spec kvs IH _ _ _ Hkvs) as (Hsub & Hps).
    pose proof (fresh_heap_None h1) as Hl.
    assert (h1 ⊆ <[fresh (dom h1) := ODict (dict_of_list kvs')]> h1) as Hsub'
      by by apply insert_subseteq.
    split; [by etrans|]. split.
    + econstructor; [apply lookup_insert_eq |]. intros k.
      rewrite dict_of_list_lookup. apply Forall2_assoc_last.
      eapply Forall2_impl; [exact Hps|]. intros ?? [??]. split; [done|].
      by eapply parsed_mono.
    + intros l [= <-]. split; [by eapply lookup_weaken_None|].
      rewrite lookup_insert_eq. eauto.
Qed.

Lemma parsed_get h t v k tk :
  parsed h t v → wire_get k t = Some tk →
  ∃ l d vk, v = VRef l ∧ h !! l = Some (ODict d) ∧ d !! k = Some vk ∧
            parsed h tk vk.
Proof.
  intros Hp Hk. destruct t; try done. simpl in Hk.
  inversion Hp as [| | | | |? l d Hl Hd]; subst. specialize (Hd k).
  rewrite Hk in Hd. inversion Hd as [? vk Hvk|]; subst. eauto 10.
Qed.

Lemma parsed_get_None h kvs v k :
  parsed h (WDict kvs) v → assoc_last k kvs = None →
  ∃ l d, v = VRef l ∧ h !! l = Some (ODict d) ∧ d !! k = None.
Proof.
  intros Hp Hk. inversion Hp as [| | | | |? l d Hl Hd]; subst.
  specialize (Hd k). rewrite Hk in Hd. inversion Hd. eauto.
Qed.

Lemma parsed_list_inv h ts v :
  parsed h (WList ts) v →
  ∃ l vs, v = VRef l ∧ h !! l = Some (OList vs) ∧
          Forall2 (parsed h) ts vs ∧ NoDup (refs vs).
Proof. inversion 1; subst. eauto 10. Qed.

Lemma parsed_atom h t v a : parsed h t v → atom_val t = Some a → v = a.
Proof. intros Hp Ha. destruct t; inversion Hp; simpl in Ha; congruence. Qed.

Lemma run_remote proxy m a h c t :
  proxy m a h = Return t →
  ∃ v h', remote proxy m a (World h c)
          = (World h' (c ++ [RpcCall m a h]), Return v) ∧
          h ⊆ h' ∧ parsed h' t v ∧ allocated h h' v.
Proof.
  intros Hp. unfold remote. simpl. rewrite Hp.
  destruct (unmarshal t h) as [v h'] eqn:Hu.
  apply unmarshal_spec in Hu. eauto.
Qed.

Lemma calls_bind_remote {B} proxy m a (k : pyval → M B) w :
  (∀ v, silent (k v)) →
  w_calls (bind (remote proxy m a) k w).1
  = w_calls w ++ [RpcCall m a (w_heap w)].
Proof.
  intros Hk. pose proof (remote_calls proxy m a w) as Hr. unfold bind.
  destruct (remote proxy m a w) as [w' [v|e]]; simpl in *; [|done].
  by rewrite Hk.
Qed.

Lemma answered_snoc proxy w t c call :
  answered proxy w t → w_calls w = c ++ [call] →
  proxy (rpc_name call) (rpc_arg call) (rpc_heap call) = Return t.
Proof.
  intros (call' & Hlast & Hp) Hc. rewrite Hc, last_snoc in Hlast.
  by injection Hlast as <-.
Qed.

Lemma run_map_m_pure {A B} (f : A → M B) (g : A → B → Prop) w xs :
  Forall (λ x, ∃ y, f x w = (w, Return y) ∧ g x y) xs →
  ∃ ys, map_m f xs w = (w, Return ys) ∧ Forall2 g xs ys.
Proof.
  induction 1 as [|x xs (y & Hy & Hg) _ (ys & Hys & Hgs)]; simpl.
  - by exists [].
  - exists (y :: ys). erewrite bind_Return by done.
    erewrite bind_Return by done. split; [done|by constructor].
Qed.

Lemma run_map_getitem h k ts vs tks :
  Forall2 (parsed h) ts vs →
  Forall2 (λ t tk, wire_get k t = Some tk) ts tks →
  ∃ ws, (∀ c, map_m (λ v, py_getitem v k) vs (World h c)
              = (World h c, Return ws)) ∧
        Forall2 (parsed h) tks ws.
Proof.
  intros Hp. revert tks.
  induction Hp as [|t v ts vs Htv _ IH]; intros tks Hk;
    inversion Hk as [|? tk ? tks' Hget Hrest]; subst; simpl.
  - by exists [].
  - destruct (parsed_get _ _ _ _ _ Htv Hget) as (l & d & vk & -> & Hl & Hd & Hpk).
    destruct (IH _ Hrest) as (ws & Hws & Hpws).
    exists (vk :: ws). split; [|by constructor]. intros c.
    erewrite bind_Return by (by eapply run_py_getitem).
    by erewrite bind_Return by done.
Qed.

Lemma parsed_not_elem_str h tns vs s :
  Forall2 (parsed h) tns vs → WStr s ∉ tns → VStr s ∉ vs.
Proof.
  induction 1 as [|tn v tns vs Hv _ IH]; [by intros _ ?%elem_of_nil|].
  intros [Hne Hno]%not_elem_of_cons [<-|Hin]%elem_of_cons; [|by apply IH].
  by inversion Hv; subst.
Qed.

Lemma filter_none {A} (P : A → Prop) `{∀ x, Decision (P x)} (l : list A) :
  Forall (λ x, ¬ P x) l → filter P l = [].
Proof.
  induction 1 as [|x l Hx _ IH]; [done|].
  rewrite filter_cons. by destruct (decide (P x)).
Qed.

(** ** [_getbugfields] *)

(** C8 (as the code has it).  When the remote service answers the
    bug-fields call with a list of fields that each have a [name], the list
    [_getbugfields] returns is those names, in order, followed by the string
    ['blockedby'] as last element.  ['blockedby'] occurs exactly once in it
    when no remote field is itself named ['blockedby']. *)
Theorem getbugfields_appends proxy w t fs tns :
  answered proxy (_getbugfields proxy w).1 t →
  wire_get "fields" t = Some (WList fs) →
  Forall2 (λ f tn, wire_get "name" f = Some tn) fs tns →
  ∃ w' l names,
    _getbugfields proxy w = (w', Return (VRef l)) ∧
    w_heap w' !! l = Some (OList (names ++ [VStr "blockedby"])) ∧
    Forall2 (parsed (w_heap w')) tns names ∧
    (WStr "blockedby" ∉ tns →
     length (filter (λ v, v = VStr "blockedby") (names ++ [VStr "blockedby"]))
     = 1%nat).
Proof.
  intros Hans Hfields Hnames. destruct w as [h c].
  unfold _getbugfields, new_list, new_dict in *.
  erewrite bind_Return in Hans |- * by apply run_alloc.
  erewrite bind_Return in Hans |- * by apply run_alloc.
  eapply answered_snoc in Hans; [|apply calls_bind_remote; silence].
  simpl in Hans.
  destruct (run_remote _ _ _ _ c _ Hans) as (r & h3 & Hrun & Hsub & Hp & _).
  erewrite bind_Return by exact Hrun.
  destruct (parsed_get _ _ _ _ _ Hp Hfields) as (lr & dr & vf & -> & Hlr & Hdr & Hpf).
  erewrite bind_Return by (by eapply run_py_getitem).
  destruct (parsed_list_inv _ _ _ Hpf) as (lf & vfs & -> & Hlf & Hvfs & _).
  erewrite bind_Return by (by eapply run_py_iter_list).
  destruct (run_map_getitem h3 "name" _ _ _ Hvfs Hnames)
    as (names & Hrunn & Hpn).
  erewrite bind_Return by apply Hrunn.
  erewrite bind_Return by apply run_alloc.
  erewrite bind_Return by (apply run_py_list_append, lookup_insert_eq).
  rewrite insert_insert_eq. eexists _, _, names. split; [reflexivity|].
  simpl. split; [apply lookup_insert_eq|]. split.
  - eapply Forall2_impl; [exact Hpn|]. intros tn v Hv.
    eapply parsed_mono; [exact Hv|]. apply insert_subseteq, fresh_heap_None.
  - intros Hno. rewrite filter_app, length_app. simpl.
    rewrite filter_none; [done|]. apply Forall_forall. intros v Hv ->.
    by eapply parsed_not_elem_str.
Qed.

(** ** The local dictionary of [_getbugs] *)

Lemma py_key_eqb_sym a b : py_key_eqb a b = py_key_eqb b a.
Proof.
  destruct a, b; simpl; try done; try apply Z.eqb_sym.
  apply String.eqb_sym.
Qed.

Lemma py_key_eqb_trans a b c :
  py_key_eqb a b = true → py_key_eqb b c = true → py_key_eqb a c = true.
Proof.
  destruct a, b, c; simpl; try done;
    rewrite ?Z.eqb_eq, ?String.eqb_eq; congruence.
Qed.

Lemma pydict_find_set k k' v d :
  pydict_find k (pydict_set k' v d)
  = if py_key_eqb k' k then Some v else pydict_find k d.
Proof.
  induction d as [|[k'' v''] d IH]; simpl.
  - done.
  - destruct (py_key_eqb k'' k') eqn:E1; simpl.
    + destruct (py_key_eqb k'' k) eqn:E2, (py_key_eqb k' k) eqn:E3; try done.
      * rewrite py_key_eqb_sym in E1.
        by rewrite (py_key_eqb_trans _ _ _ E1 E2) in E3.
      * by rewrite (py_key_eqb_trans _ _ _ E1 E3) in E2.
    + rewrite IH.
      destruct (py_key_eqb k'' k) eqn:E2, (py_key_eqb k' k) eqn:E3; try done.
      rewrite py_key_eqb_sym in E3.
      by rewrite (py_key_eqb_trans _ _ _ E2 E3) in E1.
Qed.

Lemma py_dict_find pairs : ∀ d,
  Forall (λ p, py_hashable p.1) pairs →
  ∃ d', py_dict pairs d = Return d' ∧
        ∀ k, pydict_find k d'
             = match last (filter (λ p, py_key_eqb p.1 k) pairs) with
               | Some p => Some p.2
               | None => pydict_find k d
               end.
Proof.
  induction pairs as [|[k' v] pairs IH]; intros d Hh; simpl.
  - eauto.
  - inversion Hh as [|? ? Hk Hrest]; subst. simpl in Hk.
    destruct (py_hashable k'); [|done].
    destruct (IH (pydict_set k' v d) Hrest) as (d' & -> & Hfind).
    exists d'. split; [done|]. intros k.
    rewrite Hfind, pydict_find_set, filter_cons.
    simpl. destruct (decide (py_key_eqb k' k)) as [Hy|Hn].
    + rewrite last_cons. apply Is_true_true in Hy. rewrite Hy.
      by destruct (last _).
    + apply Is_true_false in Hn. by rewrite Hn.
Qed.

(** ** [_getbugs] *)

Lemma run_map_int_ok xs ns w :
  Forall2 (λ x n, py_int x = Return n) xs ns →
  map_m (λ i, lift (py_int i)) xs w = (w, Return ns).
Proof.
  induction 1 as [|x n xs ns Hx _ IH]; simpl; [done|].
  erewrite bind_Return by (unfold lift; by rewrite Hx).
  by erewrite bind_Return by exact IH.
Qed.

Lemma run_map_pairs h ts vs :
  Forall2 (parsed h) ts vs →
  Forall (λ rec, is_Some (wire_get "id" rec ≫= atom_val)) ts →
  ∃ pairs,
    (∀ c, map_m (λ b, k <- py_getitem b "id" ;; ret (k, b)) vs (World h c)
          = (World h c, Return pairs)) ∧
    Forall2 (λ rec p, parsed h rec p.2 ∧
                      wire_get "id" rec ≫= atom_val = Some p.1) ts pairs.
Proof.
  induction 1 as [|t v ts vs Htv _ IH]; intros Hid; simpl.
  - by exists [].
  - inversion Hid as [|? ? [a Ha] Hrest]; subst.
    destruct (wire_get "id" t) as [tk|] eqn:Hk; [|done]. simpl in Ha.
    destruct (parsed_get _ _ _ _ _ Htv Hk) as (l & d & vk & -> & Hl & Hd & Hpk).
    rewrite (parsed_atom _ _ _ _ Hpk Ha) in Hd.
    destruct (IH Hrest) as (pairs & Hrun & Hps).
    exists ((a, VRef l) :: pairs). split.
    + intros c. erewrite bind_Return; cycle 1.
      { erewrite bind_Return by (by eapply run_py_getitem). reflexivity. }
      by erewrite bind_Return by apply Hrun.
    + constructor; [|done]. simpl. by rewrite Hk.
Qed.

Lemma run_map_get bugdict ns w :
  map_m (λ i, lift (pydict_get i bugdict)) (VInt <$> ns) w
  = (w, Return ((λ n, default VNone (pydict_find (VInt n) bugdict)) <$> ns)).
Proof.
  induction ns as [|n ns IH]; simpl; [done|].
  erewrite bind_Return by reflexivity.
  by erewrite bind_Return by exact IH.
Qed.

Lemma last_filter_Forall2 {A B} (R : A → B → Prop) (P : A → bool) (Q : B → bool)
    xs ys :
  Forall2 (λ x y, R x y ∧ P x = Q y) xs ys →
  option_Forall2 R (last (filter (λ x, P x) xs)) (last (filter (λ y, Q y) ys)).
Proof.
  induction 1 as [|x y xs ys [HR HPQ] _ IH]; [constructor|].
  rewrite !filter_cons, <- HPQ. destruct (P x); simpl; [|done].
  rewrite !last_cons. inversion IH; by constructor.
Qed.

(** C1.  Given a list of ids that all convert to integers and a response
    whose [bugs] are records with an atomic [id], [_getbugs] returns a list as
    long as the id list, and its element [i] is the record of the response
    whose id equals the [i]-th id (the last such record, should the response
    repeat an id), or [None] when the response has no record with that id.
    Nothing is assumed about the order of the records or about which ids are
    answered. *)
Theorem getbugs_aligned proxy h c l xs ns t recs :
  h !! l = Some (OList xs) →
  Forall2 (λ x n, py_int x = Return n) xs ns →
  answered proxy (_getbugs proxy (VRef l) (World h c)).1 t →
  wire_get "bugs" t = Some (WList recs) →
  Forall (λ rec, is_Some (wire_get "id" rec ≫= atom_val)) recs →
  ∃ w' lr res,
    _getbugs proxy (VRef l) (World h c) = (w', Return (VRef lr)) ∧
    w_heap w' !! lr = Some (OList res) ∧
    length res = length xs ∧
    ∀ i n, ns !! i = Some n →
      match last (filter (λ rec, has_id n rec) recs) with
      | Some rec => ∃ b, res !! i = Some b ∧ parsed (w_heap w') rec b
      | None => res !! i = Some VNone
      end.
Proof.
  intros Hl Hns Hans Hbugs Hids.
  unfold _getbugs, new_list, new_dict in *.
  erewrite bind_Return in Hans |- * by (by eapply run_py_iter_list).
  erewrite bind_Return in Hans |- * by (by apply run_map_int_ok).
  erewrite bind_Return in Hans |- * by apply run_alloc.
  erewrite bind_Return in Hans |- * by apply run_alloc.
  set (l1 := fresh (dom h)) in *.
  set (h1 := <[l1 := OList (VInt <$> ns)]> h) in *.
  set (l2 := fresh (dom h1)) in *.
  set (h2 := <[l2 := _]> h1) in *.
  eapply answered_snoc in Hans; [|apply calls_bind_remote; silence].
  simpl in Hans.
  destruct (run_remote _ _ _ _ c _ Hans) as (r & h3 & Hrun & Hsub & Hp & _).
  erewrite bind_Return by exact Hrun.
  destruct (parsed_get _ _ _ _ _ Hp Hbugs) as (lr & dr & vb & -> & Hlr & Hdr & Hpb).
  erewrite bind_Return by (by eapply run_py_getitem).
  destruct (parsed_list_inv _ _ _ Hpb) as (lb & bs & -> & Hlb & Hbs & _).
  erewrite bind_Return by (by eapply run_py_iter_list).
  destruct (run_map_pairs _ _ _ Hbs Hids) as (pairs & Hrunp & Hpairs).
  erewrite bind_Return by apply Hrunp.
  destruct (py_dict_find pairs []) as (bugdict & Hdict & Hfind).
  { eapply Forall2_Forall_r; [exact Hpairs|]. apply Forall_forall.
    intros rec _ p [_ Hkey]. destruct (wire_get "id" rec) as [tk|]; [|done].
    simpl in Hkey. destruct tk, p as [[] ?]; naive_solver. }
  erewrite bind_Return by (unfold lift; by rewrite Hdict).
  assert (h3 !! l1 = Some (OList (VInt <$> ns))) as Hl1.
  { assert (l2 ≠ l1) as Hne.
    { intros E. pose proof (fresh_heap_None h1) as Hf. fold l2 in Hf.
      rewrite E in Hf. subst h1. by rewrite lookup_insert_eq in Hf. }
    eapply lookup_weaken; [|exact Hsub]. subst h2 h1.
    by rewrite lookup_insert_ne, lookup_insert_eq. }
  erewrite bind_Return by (by eapply run_py_iter_list).
  erewrite bind_Return by apply run_map_get.
  rewrite run_alloc. eexists _, _, _. split; [reflexivity|]. simpl.
  split; [apply lookup_insert_eq|]. split.
  { rewrite length_fmap. symmetry. by eapply Forall2_length. }
  intros i n Hi. rewrite list_lookup_fmap, Hi. simpl. rewrite Hfind. simpl.
  pose proof (last_filter_Forall2 (λ rec p, parsed h3 rec p.2)
                (has_id n) (λ p, py_key_eqb p.1 (VInt n)) recs pairs) as Hlast.
  destruct Hlast as [rec p Hrp|].
  - eapply Forall2_impl; [exact Hpairs|]. intros rec p [Hrp Hkey].
    split; [done|]. unfold has_id. by rewrite Hkey.
  - exists p.2. split; [done|]. eapply parsed_mono; [exact Hrp|].
    apply insert_subseteq, fresh_heap_None.
  - done.
Qed.


(** *** Integer literals *)

Lemma lstrip_decomp cs :
  ∃ pre, cs = pre ++ lstrip cs ∧ Forall (λ c, is_space c) pre.
Proof.
  induction cs as [|c cs (pre & Hcs & Hpre)]; simpl.
  - by exists [].
  - destruct (is_space c) eqn:Hc.
    + exists (c :: pre). split; [by rewrite <- app_comm_cons, <- Hcs|].
      constructor; [by rewrite Hc|done].
    + by exists [].
Qed.

Lemma lstrip_spaces pre cs :
  Forall (λ c, is_space c) pre → lstrip (pre ++ cs) = lstrip cs.
Proof.
  induction 1 as [|c pre Hc _ IH]; simpl; [done|].
  by destruct (is_space c).
Qed.

Lemma lstrip_head c cs : ¬ is_space c → lstrip (c :: cs) = c :: cs.
Proof. simpl. by destruct (is_space c). Qed.

Lemma strip_decomp cs :
  ∃ pre post, cs = pre ++ strip cs ++ post ∧
              Forall (λ c, is_space c) pre ∧ Forall (λ c, is_space c) post.
Proof.
  destruct (lstrip_decomp cs) as (pre & Hcs & Hpre).
  destruct (lstrip_decomp (reverse (lstrip cs))) as (post & Hrev & Hpost).
  exists pre, (reverse post). split; [|split; [done|by apply Forall_reverse]].
  unfold strip. rewrite <- reverse_app, <- Hrev, reverse_involutive. done.
Qed.

Lemma strip_core pre mid post c c' mid' mid'' :
  Forall (λ c, is_space c) pre → Forall (λ c, is_space c) post →
  mid = c :: mid' → mid = mid'' ++ [c'] → ¬ is_space c → ¬ is_space c' →
  strip (pre ++ mid ++ post) = mid.
Proof.
  intros Hpre Hpost Hhead Hlast Hc Hc'. unfold strip.
  rewrite lstrip_spaces by done.
  rewrite Hhead, <- app_comm_cons, lstrip_head by done.
  rewrite app_comm_cons, <- Hhead, reverse_app.
  rewrite lstrip_spaces by (by apply Forall_reverse).
  rewrite Hlast at 1. rewrite reverse_snoc, lstrip_head by done.
  by rewrite <- reverse_snoc, <- Hlast, reverse_involutive.
Qed.

Lemma parse_digits_Some ds :
  is_Some (parse_digits ds) ↔ ds ≠ [] ∧ Forall (λ c, is_digit c) ds.
Proof.
  unfold parse_digits. destruct ds as [|d ds]; [split; [by intros [? ?]|naive_solver]|].
  rewrite <- forallb_True. destruct (forallb is_digit (d :: ds)); simpl.
  - naive_solver.
  - split; [by intros [? ?]|naive_solver].
Qed.

Lemma digit_not_space c : is_digit c → ¬ is_space c.
Proof.
  unfold is_digit, is_space. intros Hd Hs.
  apply bool_decide_unpack in Hd. apply bool_decide_unpack in Hs.
  repeat (apply elem_of_cons in Hs as [->|Hs]; [vm_compute in Hd; lia|]).
  by apply elem_of_nil in Hs.
Qed.

Lemma parse_int_literal s : is_Some (parse_int s) ↔ int_literal (chars s).
Proof.
  unfold parse_int, int_literal. split.
  - intros Hsome.
    destruct (strip_decomp (chars s)) as (pre & post & Hcs & Hpre & Hpost).
    destruct (strip (chars s)) as [|c ds]; [by destruct Hsome|].
    destruct (decide (c = "+"%char)) as [->|Hplus].
    { apply parse_digits_Some in Hsome as [Hne Hds].
      exists pre, ["+"%char], ds, post. naive_solver. }
    destruct (decide (c = "-"%char)) as [->|Hminus].
    { rewrite fmap_is_Some in Hsome.
      apply parse_digits_Some in Hsome as [Hne Hds].
      exists pre, ["-"%char], ds, post. naive_solver. }
    apply parse_digits_Some in Hsome as [Hne Hds].
    exists pre, [], (c :: ds), post. naive_solver.
  - intros (pre & sign & ds & post & Hcs & Hpre & Hpost & Hsign & Hne & Hds).
    assert (∃ ds' d, ds = ds' ++ [d]) as (ds' & d & Hlast).
    { destruct ds as [|d0 ds0] using rev_ind; [done|eauto]. }
    assert (is_digit d) as Hd.
    { rewrite Hlast in Hds. by apply Forall_app in Hds as [_ [? _]%Forall_cons]. }
    assert (is_Some (parse_digits ds)) as Hp by by apply parse_digits_Some.
    rewrite Hcs.
    destruct Hsign as [->|[->| ->]]; simpl app.
    + destruct ds as [|d0 ds0]; [done|].
      assert (is_digit d0) as Hd0 by by apply Forall_cons in Hds as [? _].
      rewrite (strip_core pre (d0 :: ds0) post d0 d ds0 ds');
        try done; try by apply digit_not_space.
      destruct (decide (d0 = "+"%char)) as [->|]; [done|].
      destruct (decide (d0 = "-"%char)) as [->|]; [done|]. done.
    + change ("+"%char :: ds ++ post) with (("+"%char :: ds) ++ post).
      assert (strip (pre ++ ("+"%char :: ds) ++ post) = "+"%char :: ds) as ->.
      { apply (strip_core _ _ _ "+"%char d ds ("+"%char :: ds'));
          [done | done | done | by rewrite Hlast | by vm_compute
          | by apply digit_not_space]. }
      by rewrite decide_True.
    + change ("-"%char :: ds ++ post) with (("-"%char :: ds) ++ post).
      assert (strip (pre ++ ("-"%char :: ds) ++ post) = "-"%char :: ds) as ->.
      { apply (strip_core _ _ _ "-"%char d ds ("-"%char :: ds'));
          [done | done | done | by rewrite Hlast | by vm_compute
          | by apply digit_not_space]. }
      rewrite decide_False, decide_True by done. by rewrite fmap_is_Some.
Qed.

Lemma py_int_like x : int_like x ↔ ∃ n, py_int x = Return n.
Proof.
  destruct x as [|b|n|s|l]; simpl.
  - split; [done|by intros [? ?]].
  - split; [by exists (Z.b2z b)|done].
  - split; [by exists n|done].
  - rewrite <- parse_int_literal. destruct (parse_int s) as [n|].
    + split; [by exists n|by eexists].
    + split; [by intros [? ?]|by intros [? ?]].
  - split; [done|by intros [? ?]].
Qed.

Lemma py_int_error x e : py_int x = Raise e → e = TypeError ∨ e = ValueError.
Proof.
  destruct x as [|b|n|s|l]; simpl; try destruct (parse_int s); naive_solver.
Qed.

Lemma ints_exist xs :
  Forall int_like xs → ∃ ns, Forall2 (λ x n, py_int x = Return n) xs ns.
Proof.
  induction 1 as [|x xs [n Hn]%py_int_like _ [ns Hns]]; [by exists []|].
  exists (n :: ns). by constructor.
Qed.

Lemma run_map_int_err xs w :
  ¬ Forall int_like xs →
  ∃ e, (e = TypeError ∨ e = ValueError) ∧
       map_m (λ i, lift (py_int i)) xs w = (w, Raise e).
Proof.
  induction xs as [|x xs IH]; intros Hno; [by destruct Hno|]. simpl.
  destruct (py_int x) as [n|e] eqn:Hx.
  - destruct IH as (e & He & Hrun).
    { intros Hall. apply Hno. constructor; [|done]. apply py_int_like. eauto. }
    exists e. split; [done|].
    erewrite bind_Return by reflexivity.
    by erewrite bind_Raise by exact Hrun.
  - exists e. split; [by eapply py_int_error|].
    by erewrite bind_Raise by reflexivity.
Qed.

(** C9.  [_getbugs] converts every element of its id list with [int()].
    When all of them are integer-like the conversion succeeds and the remote
    call is issued with the list of the resulting integers; when one is not,
    the call to [_getbugs] ends in Python's own [TypeError] or [ValueError]
    and no remote call has been made. *)
Theorem getbugs_conversion proxy h c l xs :
  h !! l = Some (OList xs) →
  let run := _getbugs proxy (VRef l) (World h c) in
  (Forall int_like xs →
     ∃ ns li lp d hc,
       Forall2 (λ x n, py_int x = Return n) xs ns ∧
       w_calls run.1 = c ++ [RpcCall Bug_get_bugs (VRef lp) hc] ∧
       hc !! lp = Some (ODict d) ∧
       d !! "ids" = Some (VRef li) ∧
       hc !! li = Some (OList (VInt <$> ns))) ∧
  (¬ Forall int_like xs →
     ∃ e, (e = TypeError ∨ e = ValueError) ∧
          run.2 = Raise e ∧ w_calls run.1 = c).
Proof.
  intros Hl run. subst run. unfold _getbugs, new_list, new_dict. split.
  - intros [ns Hns]%ints_exist.
    erewrite bind_Return by (by eapply run_py_iter_list).
    erewrite bind_Return by (by apply run_map_int_ok).
    erewrite bind_Return by apply run_alloc.
    erewrite bind_Return by apply run_alloc.
    rewrite calls_bind_remote by silence. simpl.
    eexists ns, _, _, _, _. split; [done|]. split; [reflexivity|].
    split; [apply lookup_insert_eq|]. split; [by simplify_map_eq|].
    rewrite lookup_insert_ne, lookup_insert_eq; [done|].
    intros E. pose proof (fresh_heap_None (<[fresh (dom h):=OList (VInt <$> ns)]> h)) as Hf.
    rewrite E in Hf. by rewrite lookup_insert_eq in Hf.
  - intros Hno.
    erewrite bind_Return by (by eapply run_py_iter_list).
    destruct (run_map_int_err xs (World h c) Hno) as (e & He & Hrun).
    erewrite bind_Raise by exact Hrun. eauto.
Qed.

(** ** [_query]: the outgoing query *)

Lemma dict_list_ne (h : heap) q lc d cs :
  h !! q = Some (ODict d) → h !! lc = Some (OList cs) → q ≠ lc.
Proof. intros Hq Hlc ->. congruence. Qed.

Lemma fresh_ne (h : heap) l o : h !! l = Some o → l ≠ fresh (dom h).
Proof. intros Hl ->. by rewrite fresh_heap_None in Hl. Qed.

Lemma run_query_rename_field h c q d lc cs old new :
  h !! q = Some (ODict d) → d !! "include_fields" = Some (VRef lc) →
  h !! lc = Some (OList cs) →
  query_rename_field (VRef q) old new (World h c)
  = (World (<[lc := OList (replace_field old new cs)]> h) c, Return tt).
Proof.
  intros Hq Hd Hlc. pose proof (dict_list_ne _ _ _ _ _ Hq Hlc) as Hne.
  unfold query_rename_field, replace_field.
  erewrite bind_Return by (by eapply run_py_getitem).
  erewrite bind_Return by (by eapply run_py_contains_list).
  case_bool_decide as Hin; unfold when.
  - erewrite bind_Return by (by eapply run_py_getitem).
    erewrite bind_Return by (by eapply run_py_list_remove).
    erewrite bind_Return
      by (eapply run_py_getitem; [by rewrite lookup_insert_ne|done]).
    erewrite run_py_list_append by apply lookup_insert_eq.
    by rewrite insert_insert_eq.
  - by rewrite insert_id.
Qed.

Lemma run_query_set_fields h c q d :
  h !! q = Some (ODict d) →
  query_set_fields (VRef q) (World h c)
  = (World (<[q := ODict (match d !! "column_list" with
                          | Some v => delete "column_list"
                                        (<["include_fields" := v]> d)
                          | None => <["include_fields" := VRef (fresh (dom h))]> d
                          end)]>
              (<[fresh (dom h) := OList []]> h)) c, Return tt).
Proof.
  intros Hq. pose proof (fresh_ne _ _ _ Hq) as Hne.
  unfold query_set_fields, new_list.
  erewrite bind_Return by apply run_alloc.
  erewrite bind_Return
    by (eapply run_py_setitem; by rewrite lookup_insert_ne).
  erewrite bind_Return
    by (eapply run_py_contains_dict; apply lookup_insert_eq).
  rewrite lookup_insert_ne by done.
  destruct (d !! "column_list") as [v|] eqn:Hcl.
  - rewrite bool_decide_eq_true_2 by eauto. unfold when.
    erewrite bind_Return
      by (eapply run_py_getitem;
          [apply lookup_insert_eq|by rewrite lookup_insert_ne]).
    erewrite bind_Return by (eapply run_py_setitem; apply lookup_insert_eq).
    erewrite run_py_delitem; cycle 1.
    { apply lookup_insert_eq. }
    { rewrite !lookup_insert_ne by done. eauto. }
    by rewrite !insert_insert_eq.
  - by rewrite bool_decide_eq_false_2 by (by intros [? ?]).
Qed.

Lemma run_query_fix_bug_id h c q d :
  h !! q = Some (ODict d) → bug_id_ok h d →
  query_fix_bug_id (VRef q) (World h c)
  = match d !! "bug_id" with
    | None => (World h c, Return tt)
    | Some (VStr s) =>
        (World (<[q := ODict (delete "bug_id"
                                (<["id" := VRef (fresh (dom h))]> d))]>
                  (<[fresh (dom h) := OList (VStr <$> str_split "," s)]> h)) c,
         Return tt)
    | Some v =>
        (World (<[q := ODict (delete "bug_id" (<["id" := v]> d))]> h) c,
         Return tt)
    end.
Proof.
  intros Hq Hok. pose proof (fresh_ne _ _ _ Hq) as Hne.
  unfold query_fix_bug_id, bug_id_ok in *.
  erewrite bind_Return by (by eapply run_py_contains_dict).
  destruct (d !! "bug_id") as [v|] eqn:Hv.
  2: { by rewrite bool_decide_eq_false_2 by (by intros [? ?]). }
  rewrite bool_decide_eq_true_2 by eauto. unfold when.
  erewrite bind_Return by (by eapply run_py_getitem).
  destruct v as [|b|n|s|l]; try done.
  - erewrite bind_Return by reflexivity. simpl negb. cbv iota.
    erewrite bind_Return; cycle 1.
    { erewrite bind_Return by (by eapply run_py_getitem).
      erewrite bind_Return by apply run_alloc.
      eapply run_py_setitem. by rewrite lookup_insert_ne. }
    erewrite run_py_delitem; cycle 1.
    { apply lookup_insert_eq. }
    { rewrite lookup_insert_ne by done. eauto. }
    by rewrite insert_insert_eq.
  - destruct Hok as [xs Hl].
    erewrite bind_Return by (by eapply run_py_is_list_ref). simpl negb.
    cbv iota.
    erewrite bind_Return; cycle 1.
    { erewrite bind_Return by (by eapply run_py_getitem).
      by eapply run_py_setitem. }
    erewrite run_py_delitem; cycle 1.
    { apply lookup_insert_eq. }
    { rewrite lookup_insert_ne by done. eauto. }
    by rewrite insert_insert_eq.
Qed.

Lemma query_fix_bug_id_spec h c q d :
  h !! q = Some (ODict d) → bug_id_ok h d →
  ∃ h1 d1,
    query_fix_bug_id (VRef q) (World h c) = (World h1 c, Return tt) ∧
    h1 !! q = Some (ODict d1) ∧
    d1 !! "bug_id" = None ∧
    (∀ k, k ≠ "bug_id" → k ≠ "id" → d1 !! k = d !! k) ∧
    match d !! "bug_id" with
    | None => d1 !! "id" = d !! "id"
    | Some (VStr s) =>
        ∃ lp, d1 !! "id" = Some (VRef lp) ∧ h !! lp = None ∧
              h1 !! lp = Some (OList (VStr <$> str_split "," s))
    | Some v => d1 !! "id" = Some v
    end ∧
    (∀ l, l ≠ q → is_Some (h !! l) → h1 !! l = h !! l).
Proof.
  intros Hq Hok. pose proof (fresh_ne _ _ _ Hq) as Hne.
  rewrite (run_query_fix_bug_id h c q d) by done. unfold bug_id_ok in Hok.
  destruct (d !! "bug_id") as [v|] eqn:Hv.
  2: { exists h, d. repeat split; try done. }
  assert (∀ w k, k ≠ "bug_id" → k ≠ "id" →
            delete "bug_id" (<["id" := w]> d) !! k = d !! k) as Hframe.
  { intros w k ??. by rewrite lookup_delete_ne, lookup_insert_ne. }
  assert (∀ w, delete "bug_id" (<["id" := w]> d) !! "id" = Some w) as Hid.
  { intros w. by rewrite lookup_delete_ne, lookup_insert_eq. }
  destruct v as [|b|n|s|l]; try done.
  - eexists _, _. split; [reflexivity|]. split; [apply lookup_insert_eq|].
    split; [apply lookup_delete_eq|]. split; [apply Hframe|]. split.
    + eexists. split; [apply Hid|]. split; [apply fresh_heap_None|].
      by rewrite lookup_insert_ne, lookup_insert_eq.
    + intros l Hl [o Ho]. rewrite !lookup_insert_ne; [done| |done].
      intros <-. by rewrite fresh_heap_None in Ho.
  - eexists _, _. split; [reflexivity|]. split; [apply lookup_insert_eq|].
    split; [apply lookup_delete_eq|]. split; [apply Hframe|].
    split; [apply Hid|]. intros l' ? _. by rewrite lookup_insert_ne.
Qed.

Lemma rename_fields_nil : rename_fields [] = [].
Proof. reflexivity. Qed.

Lemma query_normalize_run h c q d :
  h !! q = Some (ODict d) → bug_id_ok h d → columns_ok h d →
  ∃ h' d' vf,
    query_normalize (VRef q) (World h c) = (World h' c, Return tt) ∧
    h' !! q = Some (ODict d') ∧
    d' !! "bug_id" = None ∧ d' !! "column_list" = None ∧
    d' !! "include_fields" = Some vf ∧
    match d !! "column_list" with
    | None => ∃ lf, vf = VRef lf ∧ h !! lf = None ∧
                    h' !! lf = Some (OList [])
    | Some v => vf = v ∧
                ∀ lc cs, v = VRef lc → h !! lc = Some (OList cs) →
                         h' !! lc = Some (OList (rename_fields cs))
    end ∧
    match d !! "bug_id" with
    | None => d' !! "id" = d !! "id"
    | Some (VStr s) =>
        ∃ lp, d' !! "id" = Some (VRef lp) ∧ h !! lp = None ∧
              h' !! lp = Some (OList (VStr <$> str_split "," s))
    | Some v => d' !! "id" = Some v
    end ∧
    (∀ k, k ∉ ["bug_id"; "id"; "column_list"; "include_fields"] →
          d' !! k = d !! k) ∧
    (∀ l, l ≠ q → d !! "column_list" ≠ Some (VRef l) → is_Some (h !! l) →
          h' !! l = h !! l).
Proof.
  intros Hq Hbid Hcol.
  destruct (query_fix_bug_id_spec h c q d Hq Hbid)
    as (h1 & d1 & Hrun1 & Hq1 & Hb1 & Hd1 & Hid1 & Hh1).
  unfold query_normalize.
  erewrite bind_Return by exact Hrun1.
  erewrite bind_Return by (by apply run_query_set_fields).
  pose proof (fresh_heap_None h1) as Hlf. set (lf := fresh (dom h1)) in *.
  assert (q ≠ lf) as Hqlf by (intros ->; congruence).
  assert (d1 !! "column_list" = d !! "column_list") as Hcl by by apply Hd1.
  assert (∀ l, is_Some (h !! l) → l ≠ lf) as Hfresh.
  { intros l Hl ->. destruct (decide (lf = q)) as [E|E]; [done|].
    rewrite <- (Hh1 lf) in Hl by done. rewrite Hlf in Hl. by destruct Hl. }
  rewrite Hcl. unfold columns_ok in Hcol.
  destruct (d !! "column_list") as [v|] eqn:Hv.
  - destruct v as [| | | |lc]; try done. destruct Hcol as [cs Hlc].
    pose proof (dict_list_ne _ _ _ _ _ Hq Hlc) as Hqlc.
    assert (lc ≠ lf) as Hlclf by (apply Hfresh; eauto).
    set (d2 := delete "column_list" (<["include_fields" := VRef lc]> d1)).
    set (h2 := <[q := ODict d2]> (<[lf := OList []]> h1)).
    assert (h2 !! q = Some (ODict d2)) as Hq2 by apply lookup_insert_eq.
    assert (d2 !! "include_fields" = Some (VRef lc)) as Hinc.
    { subst d2. by rewrite lookup_delete_ne, lookup_insert_eq. }
    assert (h2 !! lc = Some (OList cs)) as Hlc2.
    { subst h2. rewrite !lookup_insert_ne by done. rewrite Hh1; eauto. }
    erewrite bind_Return by (by eapply run_query_rename_field).
    erewrite run_query_rename_field;
      [|by rewrite lookup_insert_ne|done|apply lookup_insert_eq].
    rewrite insert_insert_eq. fold (rename_fields cs).
    eexists _, d2, _. split; [reflexivity|].
    split; [by rewrite lookup_insert_ne|].
    split; [subst d2; by rewrite lookup_delete_ne, lookup_insert_ne|].
    split; [subst d2; apply lookup_delete_eq|].
    split; [done|]. split; [split; [done|]|].
    { intros lc' cs' [= <-] Hcs'. rewrite lookup_insert_eq. congruence. }
    assert (d2 !! "id" = d1 !! "id") as Hid2.
    { subst d2. by rewrite lookup_delete_ne, lookup_insert_ne. }
    split; [|split].
    + rewrite Hid2. destruct (d !! "bug_id") as [[| | |s|]|]; try done.
      destruct Hid1 as (lp & Hidlp & Hlp & Hlp1). exists lp.
      split; [done|]. split; [done|].
      assert (lp ≠ lf) by (intros ->; congruence).
      assert (lp ≠ q) by (intros ->; congruence).
      assert (lp ≠ lc) by (intros ->; congruence).
      subst h2. by rewrite !lookup_insert_ne.
    + intros k Hk. subst d2.
      rewrite lookup_delete_ne, lookup_insert_ne by set_solver.
      apply Hd1; set_solver.
    + intros l Hlq Hllc Hl.
      assert (l ≠ lf) by by apply Hfresh.
      subst h2. rewrite !lookup_insert_ne by congruence. by apply Hh1.
  - set (d2 := <["include_fields" := VRef lf]> d1).
    set (h2 := <[q := ODict d2]> (<[lf := OList []]> h1)).
    assert (h2 !! q = Some (ODict d2)) as Hq2 by apply lookup_insert_eq.
    assert (d2 !! "include_fields" = Some (VRef lf)) as Hinc
      by apply lookup_insert_eq.
    assert (h2 !! lf = Some (OList [])) as Hlf2.
    { subst h2. by rewrite lookup_insert_ne, lookup_insert_eq. }
    erewrite bind_Return by (by eapply run_query_rename_field).
    erewrite run_query_rename_field;
      [|by rewrite lookup_insert_ne|done|apply lookup_insert_eq].
    rewrite insert_insert_eq. fold (rename_fields []).
    rewrite rename_fields_nil.
    eexists _, d2, _. split; [reflexivity|].
    split; [by rewrite lookup_insert_ne|].
    split; [subst d2; by rewrite lookup_insert_ne|].
    split; [subst d2; by rewrite lookup_insert_ne|].
    split; [done|]. split.
    { exists lf. split; [done|]. split; [|apply lookup_insert_eq].
      destruct (h !! lf) eqn:E; [|done]. by destruct (Hfresh lf). }
    assert (d2 !! "id" = d1 !! "id") as Hid2.
    { subst d2. by rewrite lookup_insert_ne. }
    split; [|split].
    + rewrite Hid2. destruct (d !! "bug_id") as [[| | |s|]|]; try done.
      destruct Hid1 as (lp & Hidlp & Hlp & Hlp1). exists lp.
      split; [done|]. split; [done|].
      assert (lp ≠ lf) by (intros ->; congruence).
      assert (lp ≠ q) by (intros ->; congruence).
      subst h2. by rewrite !lookup_insert_ne.
    + intros k Hk. subst d2. rewrite lookup_insert_ne by set_solver.
      apply Hd1; set_solver.
    + intros l Hlq _ Hl.
      assert (l ≠ lf) by by apply Hfresh.
      subst h2. rewrite !lookup_insert_ne by congruence. by apply Hh1.
Qed.

(** *** Splitting at commas *)

Lemma split_on_nonempty sep cs : split_on sep cs ≠ [].
Proof.
  destruct cs as [|c cs]; simpl; [done|].
  destruct (decide (c = sep)); [done|]. by destruct (split_on sep cs).
Qed.

Lemma concat_cons_head sep c x l :
  String.concat sep (String c x :: l) = String c (String.concat sep (x :: l)).
Proof. by destruct l. Qed.

Lemma str_split_join sep s :
  str_join (String sep EmptyString) (str_split sep s) = s.
Proof.
  unfold str_join, str_split, unchars, chars.
  rewrite <- (string_of_list_ascii_of_string s) at 2.
  induction (list_ascii_of_string s) as [|c cs IH]; simpl; [done|].
  pose proof (split_on_nonempty sep cs) as Hne.
  destruct (decide (c = sep)) as [->|].
  - rewrite <- IH. destruct (split_on sep cs); [done|]. done.
  - destruct (split_on sep cs) as [|p ps]; [done|].
    rewrite fmap_cons. simpl string_of_list_ascii.
    rewrite concat_cons_head. by rewrite <- IH.
Qed.

Lemma str_split_pieces sep s :
  Forall (λ p, sep ∉ chars p) (str_split sep s).
Proof.
  unfold str_split, unchars, chars. apply Forall_fmap.
  induction (list_ascii_of_string s) as [|c cs IH]; simpl.
  - constructor; [|done]. simpl. apply not_elem_of_nil.
  - pose proof (split_on_nonempty sep cs) as Hne.
    destruct (decide (c = sep)) as [->|].
    + constructor; [|done]. simpl. apply not_elem_of_nil.
    + destruct (split_on sep cs) as [|p ps]; [done|].
      inversion IH as [|? ? Hp Hps]; subst. constructor; [|done].
      simpl in *. rewrite list_ascii_of_string_of_list_ascii in *.
      by intros [->|?]%elem_of_cons.
Qed.

Lemma query_calls proxy repr_obj q w w1 :
  query_normalize q w = (w1, Return tt) →
  w_calls (_query proxy repr_obj q w).1
  = w_calls w1 ++ [RpcCall Bug_search q (w_heap w1)].
Proof.
  intros Hrun. unfold _query. erewrite bind_Return by exact Hrun.
  apply calls_bind_remote. silence.
Qed.

(** C2.  For a query that has a [bug_id] (a string or a list; its
    [column_list], if any, a list), the dictionary handed to the remote search
    method has no [bug_id] key and has an [id] key.  For a string, [id] is a
    new list of the pieces between its commas, which join back to the string
    and hold no comma themselves; for a list, [id] is that very list object,
    with its elements as they were unless the same object was also given as
    [column_list]. *)
Theorem query_bug_id_normalized proxy repr_obj h c q d v :
  h !! q = Some (ODict d) → d !! "bug_id" = Some v →
  bug_id_ok h d → columns_ok h d →
  ∃ h' d',
    w_calls (_query proxy repr_obj (VRef q) (World h c)).1
      = c ++ [RpcCall Bug_search (VRef q) h'] ∧
    h' !! q = Some (ODict d') ∧
    d' !! "bug_id" = None ∧
    match v with
    | VStr s =>
        ∃ lp, d' !! "id" = Some (VRef lp) ∧ h !! lp = None ∧
              h' !! lp = Some (OList (VStr <$> str_split "," s)) ∧
              str_join "," (str_split "," s) = s ∧
              Forall (λ p, ","%char ∉ chars p) (str_split "," s)
    | _ =>
        d' !! "id" = Some v ∧
        ∀ l xs, v = VRef l → h !! l = Some (OList xs) →
                d !! "column_list" ≠ Some v → h' !! l = Some (OList xs)
    end.
Proof.
  intros Hq Hv Hbid Hcol.
  destruct (query_normalize_run h c q d Hq Hbid Hcol)
    as (h' & d' & vf & Hrun & Hq' & Hb' & _ & _ & _ & Hid & _ & Hframe).
  exists h', d'. split; [by rewrite (query_calls _ _ _ _ _ Hrun)|].
  split; [done|]. split; [done|]. rewrite Hv in Hid.
  destruct v as [| | |s|l].
  1-3: by split.
  2: { split; [done|]. intros l' xs [= <-] Hl Hne. rewrite Hframe; eauto.
       intros ->. congruence. }
  destruct Hid as (lp & Hidlp & Hlp & Hlp'). exists lp.
  repeat split; try done.
  - apply str_split_join.
  - apply str_split_pieces.
Qed.

(** C5.  Whatever the query holds, the dictionary handed to the remote search
    method has an [include_fields] key and no [column_list] key.  Without a
    [column_list] in the query, [include_fields] is a new empty list (also
    when the caller gave an [include_fields] of their own).  With one,
    [include_fields] is the value that was under [column_list], the caller's
    list object, in which the two names the service does not know have been
    replaced; it has its elements unchanged when it names neither. *)
Theorem query_include_fields proxy repr_obj h c q d :
  h !! q = Some (ODict d) → bug_id_ok h d → columns_ok h d →
  ∃ h' d' vf,
    w_calls (_query proxy repr_obj (VRef q) (World h c)).1
      = c ++ [RpcCall Bug_search (VRef q) h'] ∧
    h' !! q = Some (ODict d') ∧
    d' !! "include_fields" = Some vf ∧
    d' !! "column_list" = None ∧
    match d !! "column_list" with
    | None => ∃ lf, vf = VRef lf ∧ h !! lf = None ∧
                    h' !! lf = Some (OList [])
    | Some v =>
        vf = v ∧
        ∀ lc cs, v = VRef lc → h !! lc = Some (OList cs) →
          h' !! lc = Some (OList (rename_fields cs)) ∧
          (VStr "blockedby" ∉ cs → VStr "bug_id" ∉ cs → rename_fields cs = cs)
    end.
Proof.
  intros Hq Hbid Hcol.
  destruct (query_normalize_run h c q d Hq Hbid Hcol)
    as (h' & d' & vf & Hrun & Hq' & _ & Hcl & Hinc & Hfields & _).
  exists h', d', vf. split; [by rewrite (query_calls _ _ _ _ _ Hrun)|].
  split; [done|]. split; [done|]. split; [done|].
  destruct (d !! "column_list") as [v|]; [|done].
  destruct Hfields as [-> Hlc]. split; [done|]. intros lc cs -> Hcs.
  split; [by eapply Hlc|]. intros H1 H2. unfold rename_fields, replace_field.
  by rewrite (bool_decide_eq_false_2 _ H1), (bool_decide_eq_false_2 _ H2).
Qed.

(** ** [_query]: the bugs of the response *)

Lemma kept_refl h : kept h h.
Proof. split; eauto. Qed.

Lemma kept_patch h h' l d d' :
  kept h h' → h !! l = Some (ODict d) →
  (∀ k, k ∉ touched → d' !! k = d !! k) →
  kept h (<[l := ODict d']> h').
Proof.
  intros [Hlist Hdict] Hl Hd'. split.
  - intros l' xs Hl'. rewrite lookup_insert_ne by congruence. eauto.
  - intros l' d0 Hl'. destruct (decide (l = l')) as [<-|Hne].
    + rewrite lookup_insert_eq. exists d'. split; [done|].
      by assert (d0 = d) as -> by congruence.
    + rewrite lookup_insert_ne by done. eauto.
Qed.

Lemma flag_in_kept h h' e s : kept h h' → flag_in h e s → flag_in h' e s.
Proof.
  intros [_ Hdict] (le & de & n & st & a & b & -> & Hle & Hn & Hst & Ha & Hb & ->).
  destruct (Hdict _ _ Hle) as (de' & Hle' & Hde').
  exists le, de', n, st, a, b. repeat split; try done.
  - rewrite Hde'; [done|]. unfold touched. set_solver.
  - rewrite Hde'; [done|]. unfold touched. set_solver.
Qed.

Lemma flags_in_kept h h' f s : kept h h' → flags_in h f s → flags_in h' f s.
Proof.
  intros Hk (lf & es & strs & -> & Hlf & Hes & ->).
  exists lf, es, strs. repeat split; try done; [by apply Hk|].
  eapply Forall2_impl; [exact Hes|]. intros. by eapply flag_in_kept.
Qed.

Lemma blocks_in_kept h h' b s : kept h h' → blocks_in h b s → blocks_in h' b s.
Proof.
  intros Hk (lb & xs & strs & -> & Hlb & Hxs & ->).
  exists lb, xs, strs. repeat split; try done. by apply Hk.
Qed.

Lemma run_py_str_atom repr_obj v s w :
  str_atom v = Some s → py_str repr_obj v w = (w, Return s).
Proof. destruct v; simpl; try done; by intros [= <-]. Qed.

Lemma run_map_flags repr_obj h c es strs :
  Forall2 (flag_in h) es strs →
  map_m (λ tmp, name <- py_getitem tmp "name" ;;
                status <- py_getitem tmp "status" ;;
                py_format2 repr_obj name status) es (World h c)
  = (World h c, Return strs).
Proof.
  induction 1 as [|e s es strs (le & de & n & st & a & b & -> & Hle & Hn & Hst & Ha & Hb & ->) _ IH];
    simpl; [done|].
  erewrite bind_Return; cycle 1.
  { erewrite bind_Return by (by eapply run_py_getitem).
    erewrite bind_Return by (by eapply run_py_getitem).
    unfold py_format2.
    erewrite bind_Return by (by apply run_py_str_atom).
    erewrite bind_Return by (by apply run_py_str_atom). reflexivity. }
  by erewrite bind_Return by exact IH.
Qed.

Lemma run_map_str repr_obj w xs strs :
  Forall2 (λ x s, str_atom x = Some s) xs strs →
  map_m (py_str repr_obj) xs w = (w, Return strs).
Proof.
  induction 1 as [|x s xs strs Hx _ IH]; simpl; [done|].
  erewrite bind_Return by (by apply run_py_str_atom).
  by erewrite bind_Return by exact IH.
Qed.

Lemma run_bug_fix_flags repr_obj h c l d sf :
  h !! l = Some (ODict d) →
  option_Forall2 (flags_in h) (d !! "flags") sf →
  bug_fix_flags repr_obj (VRef l) (World h c)
  = (World (<[l := ODict (patch "flags" (VStr <$> sf) d)]> h) c, Return tt).
Proof.
  intros Hl Hf. unfold bug_fix_flags.
  erewrite bind_Return by (by eapply run_py_contains_dict).
  destruct (d !! "flags") as [f|] eqn:Hd;
    inversion Hf as [? s (lf & es & strs & -> & Hlf & Hes & ->)|]; subst.
  - rewrite bool_decide_eq_true_2 by eauto. unfold when.
    erewrite bind_Return by (by eapply run_py_getitem).
    erewrite bind_Return by (by eapply run_py_iter_list).
    erewrite bind_Return by (by apply run_map_flags).
    by erewrite run_py_setitem.
  - rewrite bool_decide_eq_false_2 by (by intros [? ?]).
    by rewrite insert_id.
Qed.

Lemma patch_lookup_ne k k' o d : k ≠ k' → patch k o d !! k' = d !! k'.
Proof. intros Hne. destruct o; simpl; [by rewrite lookup_insert_ne|done]. Qed.

Lemma patch_lookup_eq k o d :
  patch k o d !! k = match o with Some v => Some v | None => d !! k end.
Proof. destruct o; simpl; [apply lookup_insert_eq|done]. Qed.

Lemma run_bug_fix_blocks repr_obj h c l d sb :
  h !! l = Some (ODict d) →
  option_Forall2 (blocks_in h) (d !! "blocks") sb →
  bug_fix_blocks repr_obj (VRef l) (World h c)
  = (World (<[l := ODict (patch "blockedby" (VStr <$> sb) d)]> h) c, Return tt).
Proof.
  intros Hl Hb. unfold bug_fix_blocks.
  erewrite bind_Return by (by eapply run_py_contains_dict).
  destruct (d !! "blocks") as [b|] eqn:Hd;
    inversion Hb as [? s (lb & xs & strs & -> & Hlb & Hxs & ->)|]; subst.
  - rewrite bool_decide_eq_true_2 by eauto. unfold when.
    erewrite bind_Return by (by eapply run_py_getitem).
    erewrite bind_Return by (by eapply run_py_len_list).
    destruct xs as [|x xs].
    + inversion Hxs; subst.
      replace (0 <? Z.of_nat (length (@nil pyval))) with false by done.
      by erewrite run_py_setitem.
    + replace (0 <? Z.of_nat (length (x :: xs))) with true
        by (symmetry; apply Z.ltb_lt; simpl; lia).
      erewrite bind_Return by (by eapply run_py_getitem).
      erewrite bind_Return by (by eapply run_py_iter_list).
      erewrite bind_Return by (by apply run_map_str).
      by erewrite run_py_setitem.
  - rewrite bool_decide_eq_false_2 by (by intros [? ?]).
    by rewrite insert_id.
Qed.

Lemma run_bug_fix_id h c l d :
  h !! l = Some (ODict d) →
  bug_fix_id (VRef l) (World h c)
  = (World (<[l := ODict (patch "bug_id" (d !! "id") d)]> h) c, Return tt).
Proof.
  intros Hl. unfold bug_fix_id.
  erewrite bind_Return by (by eapply run_py_contains_dict).
  destruct (d !! "id") as [v|] eqn:Hd.
  - rewrite bool_decide_eq_true_2 by eauto. unfold when.
    erewrite bind_Return by (by eapply run_py_getitem).
    by erewrite run_py_setitem.
  - rewrite bool_decide_eq_false_2 by (by intros [? ?]).
    by rewrite insert_id.
Qed.

Lemma patched_frame d sf sb k : k ∉ touched → patched d sf sb !! k = d !! k.
Proof.
  intros Hk. unfold patched, touched in *.
  rewrite !patch_lookup_ne by set_solver. done.
Qed.

Lemma run_query_fix_bug repr_obj h c l d sf sb :
  h !! l = Some (ODict d) →
  option_Forall2 (flags_in h) (d !! "flags") sf →
  option_Forall2 (blocks_in h) (d !! "blocks") sb →
  query_fix_bug repr_obj (VRef l) (World h c)
  = (World (<[l := ODict (patched d sf sb)]> h) c, Return tt).
Proof.
  intros Hl Hf Hb. unfold query_fix_bug, patched.
  erewrite bind_Return by (by eapply run_bug_fix_flags).
  set (d1 := patch "flags" (VStr <$> sf) d).
  assert (kept h (<[l := ODict d1]> h)) as Hk.
  { eapply kept_patch; [apply kept_refl|done|]. intros k Hk. subst d1.
    apply patch_lookup_ne. unfold touched in Hk. set_solver. }
  erewrite bind_Return; cycle 1.
  { eapply (run_bug_fix_blocks _ _ _ _ d1 sb); [apply lookup_insert_eq|].
    subst d1. rewrite patch_lookup_ne by done.
    destruct Hb; constructor. by eapply blocks_in_kept. }
  rewrite insert_insert_eq.
  erewrite run_bug_fix_id by apply lookup_insert_eq.
  rewrite insert_insert_eq. subst d1.
  by rewrite !patch_lookup_ne by done.
Qed.

Lemma run_fix_loop repr_obj h0 c items : ∀ h,
  kept h0 h →
  NoDup (bi_loc <$> items) →
  Forall (λ it, h0 !! bi_loc it = Some (ODict (bi_dict it)) ∧
                h !! bi_loc it = Some (ODict (bi_dict it)) ∧
                option_Forall2 (flags_in h0) (bi_dict it !! "flags") (bi_flags it) ∧
                option_Forall2 (blocks_in h0) (bi_dict it !! "blocks") (bi_blocks it))
         items →
  ∃ h',
    for_each ((λ it, VRef (bi_loc it)) <$> items) (query_fix_bug repr_obj)
             (World h c)
    = (World h' c, Return tt) ∧
    kept h0 h' ∧
    (∀ l, l ∉ bi_loc <$> items → h' !! l = h !! l) ∧
    Forall (λ it, h' !! bi_loc it
                  = Some (ODict (patched (bi_dict it) (bi_flags it) (bi_blocks it))))
           items.
Proof.
  induction items as [|it items IH]; intros h Hk Hnd Hall; simpl.
  - exists h. split; [done|]. split; [done|]. split; [done|constructor].
  - apply NoDup_cons in Hnd as [Hnotin Hnd].
    apply Forall_cons in Hall as [(Hl0 & Hl & Hf & Hb) Hall].
    set (h1 := <[bi_loc it := ODict (patched (bi_dict it) (bi_flags it)
                                             (bi_blocks it))]> h).
    assert (kept h0 h1) as Hk1.
    { eapply kept_patch; [done|done|]. intros k ?. by apply patched_frame. }
    destruct (IH h1 Hk1 Hnd) as (h' & Hrun & Hk' & Hframe & Hres).
    { rewrite Forall_forall in Hall |- *. intros it' Hin.
      destruct (Hall it' Hin) as (? & Hit' & ? & ?).
      repeat split; try done. subst h1. rewrite lookup_insert_ne; [done|].
      intros E. apply Hnotin. rewrite E. by apply list_elem_of_fmap_2. }
    exists h'. split.
    { erewrite bind_Return; [exact Hrun|].
      eapply run_query_fix_bug; [done| |].
      - destruct Hf; constructor. by eapply flags_in_kept.
      - destruct Hb; constructor. by eapply blocks_in_kept. }
    split; [done|]. split.
    + intros l Hl'. apply not_elem_of_cons in Hl' as [Hne Hl'].
      rewrite Hframe by done. subst h1. by rewrite lookup_insert_ne.
    + constructor; [|done]. rewrite Hframe by done. subst h1.
      apply lookup_insert_eq.
Qed.

Lemma parsed_text h t v s :
  parsed h t v → wire_text t = Some s → str_atom v = Some s.
Proof.
  unfold wire_text. intros Hp Ht. destruct (atom_val t) as [a|] eqn:Ha; [|done].
  by rewrite (parsed_atom _ _ _ _ Hp Ha).
Qed.

Lemma parsed_flag_in h e v s :
  parsed h e v → flag_text e = Some s → flag_in h v s.
Proof.
  unfold flag_text. intros Hp Ht.
  destruct (wire_get "name" e) as [tn|] eqn:Hn; [|done].
  destruct (wire_get "status" e) as [ts|] eqn:Hs; [|done]. simpl in Ht.
  destruct (wire_text tn) as [a|] eqn:Ha; [|done].
  destruct (wire_text ts) as [b|] eqn:Hb; [|done]. simpl in Ht.
  injection Ht as <-.
  destruct (parsed_get _ _ _ _ _ Hp Hn) as (l & d & vn & -> & Hl & Hdn & Hpn).
  destruct (parsed_get _ _ _ _ _ Hp Hs) as (l' & d' & vs & [= <-] & Hl' & Hds & Hps).
  assert (d' = d) as -> by congruence.
  exists l, d, vn, vs, a, b. repeat split; try done; by eapply parsed_text.
Qed.

Lemma Forall2_chain {A B C} (P : A → B → Prop) (Q : A → C → Prop)
    (R : B → C → Prop) xs ys zs :
  (∀ x y z, P x y → Q x z → R y z) →
  Forall2 P xs ys → Forall2 Q xs zs → Forall2 R ys zs.
Proof.
  intros HR HP. revert zs.
  induction HP; intros zs HQ; inversion HQ; subst; constructor; eauto.
Qed.

Lemma parsed_flags_in h tf f s :
  parsed h tf f → flags_text tf = Some s → flags_in h f s.
Proof.
  intros Hp Ht. destruct tf as [| | | |es|]; try done. simpl in Ht.
  destruct (mapM flag_text es) as [strs|] eqn:Hstrs; [|done].
  injection Ht as <-. apply mapM_Some in Hstrs.
  destruct (parsed_list_inv _ _ _ Hp) as (lf & vs & -> & Hlf & Hvs & _).
  exists lf, vs, strs. repeat split; try done.
  eapply Forall2_chain; [|exact Hvs|exact Hstrs].
  intros e v s' ??. by eapply parsed_flag_in.
Qed.

Lemma parsed_blocks_in h tb b s :
  parsed h tb b → blocks_text tb = Some s → blocks_in h b s.
Proof.
  intros Hp Ht. destruct tb as [| | | |xs|]; try done. simpl in Ht.
  destruct (mapM wire_text xs) as [strs|] eqn:Hstrs; [|done].
  injection Ht as <-. apply mapM_Some in Hstrs.
  destruct (parsed_list_inv _ _ _ Hp) as (lb & vs & -> & Hlb & Hvs & _).
  exists lb, vs, strs. repeat split; try done.
  eapply Forall2_chain; [|exact Hvs|exact Hstrs].
  intros e v s' ??. by eapply parsed_text.
Qed.

(** What is known of a record of the response once it is in the store. *)
Lemma parsed_record_item h rec b :
  parsed h rec b → record_ok rec →
  ∃ it,
    b = VRef (bi_loc it) ∧
    h !! bi_loc it = Some (ODict (bi_dict it)) ∧
    (∀ k, bi_dict it !! k = None ↔ wire_get k rec = None) ∧
    bi_flags it = wire_get "flags" rec ≫= flags_text ∧
    bi_blocks it = wire_get "blocks" rec ≫= blocks_text ∧
    option_Forall2 (flags_in h) (bi_dict it !! "flags") (bi_flags it) ∧
    option_Forall2 (blocks_in h) (bi_dict it !! "blocks") (bi_blocks it).
Proof.
  intros Hp ([kvs ->] & Hf & Hb).
  inversion Hp as [| | | | |? l d Hl Hd]; subst.
  exists (BugItem l d (wire_get "flags" (WDict kvs) ≫= flags_text)
                      (wire_get "blocks" (WDict kvs) ≫= blocks_text)).
  cbn [wire_get bi_loc bi_dict bi_flags bi_blocks] in *.
  repeat split; try done.
  - intros Hk. specialize (Hd k). rewrite Hk in Hd. by inversion Hd.
  - intros Hk. specialize (Hd k). rewrite Hk in Hd. by inversion Hd.
  - specialize (Hd "flags").
    destruct (assoc_last "flags" kvs) as [tf|] eqn:E;
      inversion Hd as [? f Hpf|]; subst; simpl; [|constructor].
    destruct (Hf tf eq_refl) as [s Hs]. rewrite Hs. constructor.
    by eapply parsed_flags_in.
  - specialize (Hd "blocks").
    destruct (assoc_last "blocks" kvs) as [tb|] eqn:E;
      inversion Hd as [? f Hpf|]; subst; simpl; [|constructor].
    destruct (Hb tb eq_refl) as [s Hs]. rewrite Hs. constructor.
    by eapply parsed_blocks_in.
Qed.

Lemma parsed_record_items h recs bs :
  Forall2 (parsed h) recs bs → Forall record_ok recs →
  ∃ items,
    bs = (λ it, VRef (bi_loc it)) <$> items ∧
    refs bs = bi_loc <$> items ∧
    Forall2 (λ rec it,
      h !! bi_loc it = Some (ODict (bi_dict it)) ∧
      (∀ k, bi_dict it !! k = None ↔ wire_get k rec = None) ∧
      bi_flags it = wire_get "flags" rec ≫= flags_text ∧
      bi_blocks it = wire_get "blocks" rec ≫= blocks_text ∧
      option_Forall2 (flags_in h) (bi_dict it !! "flags") (bi_flags it) ∧
      option_Forall2 (blocks_in h) (bi_dict it !! "blocks") (bi_blocks it))
      recs items.
Proof.
  induction 1 as [|rec b recs bs Hp _ IH]; intros Hok.
  - exists []. repeat split; constructor.
  - apply Forall_cons in Hok as [Hrec Hok].
    destruct (IH Hok) as (items & -> & Hrefs & Hitems).
    destruct (parsed_record_item _ _ _ Hp Hrec) as (it & -> & Hit).
    exists (it :: items). split; [done|]. split.
    + rewrite fmap_cons, <- Hrefs. reflexivity.
    + by constructor.
Qed.

Lemma Forall2_and_Forall_r {A B} (P : A → B → Prop) (Q : B → Prop) xs ys :
  Forall2 P xs ys → Forall Q ys → Forall2 (λ x y, P x y ∧ Q y) xs ys.
Proof.
  induction 1; intros HQ; inversion HQ; subst; constructor; auto.
Qed.

(** The whole of [_query] on a query that normalizes and a response whose
    bugs are well-formed records: it returns the response, in which every
    record has been patched. *)
Lemma query_run proxy repr_obj h c q w1 t recs :
  query_normalize (VRef q) (World h c) = (w1, Return tt) →
  answered proxy (_query proxy repr_obj (VRef q) (World h c)).1 t →
  wire_get "bugs" t = Some (WList recs) →
  Forall record_ok recs →
  ∃ w' lr dr lb items,
    _query proxy repr_obj (VRef q) (World h c) = (w', Return (VRef lr)) ∧
    w_heap w' !! lr = Some (ODict dr) ∧
    dr !! "bugs" = Some (VRef lb) ∧
    w_heap w' !! lb = Some (OList ((λ it, VRef (bi_loc it)) <$> items)) ∧
    Forall2 (λ rec it,
      (∀ k, bi_dict it !! k = None ↔ wire_get k rec = None) ∧
      bi_flags it = wire_get "flags" rec ≫= flags_text ∧
      bi_blocks it = wire_get "blocks" rec ≫= blocks_text ∧
      w_heap w' !! bi_loc it
      = Some (ODict (patched (bi_dict it) (bi_flags it) (bi_blocks it))))
      recs items.
Proof.
  intros Hnorm Hans Hbugs Hok.
  eapply answered_snoc in Hans; [|by apply query_calls]. simpl in Hans.
  unfold _query. erewrite bind_Return by exact Hnorm.
  destruct w1 as [h1 c1].
  destruct (run_remote _ _ _ _ c1 _ Hans) as (r & h3 & Hrun & Hsub & Hp & _).
  erewrite bind_Return by exact Hrun.
  destruct (parsed_get _ _ _ _ _ Hp Hbugs)
    as (lr & dr & vb & -> & Hlr & Hdr & Hpb).
  erewrite bind_Return by (by eapply run_py_getitem).
  destruct (parsed_list_inv _ _ _ Hpb) as (lb & bs & -> & Hlb & Hbs & Hnd).
  erewrite bind_Return by (by eapply run_py_iter_list).
  destruct (parsed_record_items _ _ _ Hbs Hok) as (items & -> & Hrefs & Hitems).
  rewrite Hrefs in Hnd.
  destruct (run_fix_loop repr_obj h3 (c1 ++ [RpcCall Bug_search (VRef q) h1])
              items h3 (kept_refl h3) Hnd)
    as (h' & Hloop & Hk & _ & Hres).
  { eapply Forall2_Forall_r; [exact Hitems|]. apply Forall_forall.
    intros rec _ it (? & _ & _ & _ & ? & ?). done. }
  erewrite bind_Return by exact Hloop.
  destruct Hk as [Hklist Hkdict].
  destruct (Hkdict _ _ Hlr) as (dr' & Hlr' & Hdr').
  exists (World h' (c1 ++ [RpcCall Bug_search (VRef q) h1])), lr, dr', lb, items.
  split; [done|]. simpl. split; [done|].
  split; [rewrite Hdr'; [done|unfold touched; set_solver]|].
  split; [by apply Hklist|].
  eapply Forall2_impl; [exact (Forall2_and_Forall_r _ _ _ _ Hitems Hres)|].
  simpl. intros rec it [(_ & ? & ? & ? & _ & _) ?]. done.
Qed.

Lemma patched_flags d sf sb :
  patched d sf sb !! "flags"
  = match sf with Some s => Some (VStr s) | None => d !! "flags" end.
Proof.
  unfold patched. rewrite !patch_lookup_ne, patch_lookup_eq by done.
  by destruct sf.
Qed.

Lemma patched_blockedby d sf sb :
  patched d sf sb !! "blockedby"
  = match sb with Some s => Some (VStr s) | None => d !! "blockedby" end.
Proof.
  unfold patched. rewrite patch_lookup_ne, patch_lookup_eq by done.
  destruct sb; simpl; [done|]. by rewrite patch_lookup_ne.
Qed.

(** C3.  In the response [_query] returns, a record that came with a
    [flags] list of [name]/[status] entries has, under [flags], the string of
    the entries' name-then-status texts joined by commas; a record that came
    without [flags] has no [flags] key.  The call does not fail. *)
Theorem query_flags_joined proxy repr_obj h c q w1 t recs :
  query_normalize (VRef q) (World h c) = (w1, Return tt) →
  answered proxy (_query proxy repr_obj (VRef q) (World h c)).1 t →
  wire_get "bugs" t = Some (WList recs) →
  Forall record_ok recs →
  ∃ w' lr dr lb bs,
    _query proxy repr_obj (VRef q) (World h c) = (w', Return (VRef lr)) ∧
    w_heap w' !! lr = Some (ODict dr) ∧
    dr !! "bugs" = Some (VRef lb) ∧
    w_heap w' !! lb = Some (OList bs) ∧
    Forall2 (λ rec b,
      ∃ l d', b = VRef l ∧ w_heap w' !! l = Some (ODict d') ∧
        match wire_get "flags" rec with
        | Some tf => ∃ s, flags_text tf = Some s ∧
                          d' !! "flags" = Some (VStr s)
        | None => d' !! "flags" = None
        end) recs bs.
Proof.
  intros Hnorm Hans Hbugs Hok.
  destruct (query_run _ _ _ _ _ _ _ _ Hnorm Hans Hbugs Hok)
    as (w' & lr & dr & lb & items & Hrun & Hlr & Hdr & Hlb & Hitems).
  exists w', lr, dr, lb, ((λ it, VRef (bi_loc it)) <$> items).
  repeat split; try done. apply Forall2_fmap_r.
  eapply Forall2_impl_Forall; [exact Hok|exact Hitems|].
  intros rec it (_ & Hf & _) (Hnone & Hsf & _ & Hit). simpl.
  eexists _, _. split; [done|]. split; [exact Hit|].
  rewrite patched_flags, Hsf.
  destruct (wire_get "flags" rec) as [tf|] eqn:E; simpl.
  - destruct (Hf tf eq_refl) as [s Hs]. rewrite Hs. eauto.
  - by apply Hnone.
Qed.

(** C4.  In the response [_query] returns, a record that came with a
    [blocks] list has, under [blockedby], the string of the blocked ids'
    texts joined by commas, which is the empty string for an empty list; a
    record that came without [blocks] has a [blockedby] key only if it came
    with one: none is added. *)
Theorem query_blockedby_derived proxy repr_obj h c q w1 t recs :
  query_normalize (VRef q) (World h c) = (w1, Return tt) →
  answered proxy (_query proxy repr_obj (VRef q) (World h c)).1 t →
  wire_get "bugs" t = Some (WList recs) →
  Forall record_ok recs →
  ∃ w' lr dr lb bs,
    _query proxy repr_obj (VRef q) (World h c) = (w', Return (VRef lr)) ∧
    w_heap w' !! lr = Some (ODict dr) ∧
    dr !! "bugs" = Some (VRef lb) ∧
    w_heap w' !! lb = Some (OList bs) ∧
    Forall2 (λ rec b,
      ∃ l d', b = VRef l ∧ w_heap w' !! l = Some (ODict d') ∧
        match wire_get "blocks" rec with
        | Some tb => ∃ s, blocks_text tb = Some s ∧
                          d' !! "blockedby" = Some (VStr s) ∧
                          (tb = WList [] → s = "")
        | None => d' !! "blockedby" = None ↔ wire_get "blockedby" rec = None
        end) recs bs.
Proof.
  intros Hnorm Hans Hbugs Hok.
  destruct (query_run _ _ _ _ _ _ _ _ Hnorm Hans Hbugs Hok)
    as (w' & lr & dr & lb & items & Hrun & Hlr & Hdr & Hlb & Hitems).
  exists w', lr, dr, lb, ((λ it, VRef (bi_loc it)) <$> items).
  repeat split; try done. apply Forall2_fmap_r.
  eapply Forall2_impl_Forall; [exact Hok|exact Hitems|].
  intros rec it (_ & _ & Hb) (Hnone & _ & Hsb & Hit). simpl.
  eexists _, _. split; [done|]. split; [exact Hit|].
  rewrite patched_blockedby, Hsb.
  destruct (wire_get "blocks" rec) as [tb|] eqn:E; simpl.
  - destruct (Hb tb eq_refl) as [s Hs]. rewrite Hs. exists s.
    repeat split; try done. intros ->. simpl in Hs. by injection Hs as <-.
  - apply Hnone.
Qed.

(** C10.  In the response [_query] returns, a record that came with an empty
    [flags] list has the empty string under [flags]: the key is kept, and the
    call does not fail. *)
Theorem query_empty_flags proxy repr_obj h c q w1 t recs :
  query_normalize (VRef q) (World h c) = (w1, Return tt) →
  answered proxy (_query proxy repr_obj (VRef q) (World h c)).1 t →
  wire_get "bugs" t = Some (WList recs) →
  Forall record_ok recs →
  ∃ w' lr dr lb bs,
    _query proxy repr_obj (VRef q) (World h c) = (w', Return (VRef lr)) ∧
    w_heap w' !! lr = Some (ODict dr) ∧
    dr !! "bugs" = Some (VRef lb) ∧
    w_heap w' !! lb = Some (OList bs) ∧
    Forall2 (λ rec b,
      ∃ l d', b = VRef l ∧ w_heap w' !! l = Some (ODict d') ∧
        (wire_get "flags" rec = Some (WList []) →
         d' !! "flags" = Some (VStr ""))) recs bs.
Proof.
  intros Hnorm Hans Hbugs Hok.
  destruct (query_run _ _ _ _ _ _ _ _ Hnorm Hans Hbugs Hok)
    as (w' & lr & dr & lb & items & Hrun & Hlr & Hdr & Hlb & Hitems).
  exists w', lr, dr, lb, ((λ it, VRef (bi_loc it)) <$> items).
  repeat split; try done. apply Forall2_fmap_r.
  eapply Forall2_impl; [exact Hitems|].
  intros rec it (_ & Hsf & _ & Hit). simpl.
  eexists _, _. split; [done|]. split; [exact Hit|].
  intros E. by rewrite patched_flags, Hsf, E.
Qed.

(** ** The theorems on sample data *)

Lemma getusers_params_witness :
  (∃ msg, (_getusers (sample_proxy WNone) VNone VNone VNone (World ∅ [])).2
          = Raise (NeedParamError msg)) ∧
  w_calls (_getusers (sample_proxy WNone) VNone VNone VNone (World ∅ [])).1 = [].
Proof.
  assert (valid ∅ VNone) as Hv by (intros l Hl; discriminate Hl).
  destruct (getusers_params (sample_proxy WNone) VNone VNone VNone ∅ [] Hv Hv Hv)
    as [Hraise _].
  apply Hraise. unfold empty_arg. auto.
Defined.

Lemma getbugs_conversion_witness :
  ∃ e, (e = TypeError ∨ e = ValueError) ∧
       (_getbugs (sample_proxy WNone) (VRef 1)
          (World {[1%positive := OList [VInt 2; VStr "two"]]} [])).2 = Raise e ∧
       w_calls (_getbugs (sample_proxy WNone) (VRef 1)
          (World {[1%positive := OList [VInt 2; VStr "two"]]} [])).1 = [].
Proof.
  destruct (getbugs_conversion (sample_proxy WNone)
              {[1%positive := OList [VInt 2; VStr "two"]]} [] 1%positive
              [VInt 2; VStr "two"]) as [_ Hfail]; [reflexivity|].
  apply Hfail. intros Hall.
  apply Forall_cons in Hall as [_ Hall]. apply Forall_cons in Hall as [Htwo _].
  apply py_int_like in Htwo as [n Hn]. vm_compute in Hn. discriminate Hn.
Defined.

Lemma getbugs_aligned_witness :
  ∃ w' lr res b,
    _getbugs (sample_proxy sample_search_response) (VRef 1)
      (World sample_ids_heap []) = (w', Return (VRef lr)) ∧
    w_heap w' !! lr = Some (OList res) ∧
    length res = 3%nat ∧
    res !! 0%nat = Some b ∧
    parsed (w_heap w') (WDict [("id", WInt 3); ("flags", WList []);
                               ("blocks", WList [])]) b ∧
    res !! 1%nat = Some VNone.
Proof.
  destruct (getbugs_aligned (sample_proxy sample_search_response)
              sample_ids_heap [] 1%positive sample_ids [3; 9; 7]
              sample_search_response sample_bugs)
    as (w' & lr & res & Hrun & Hres & Hlen & Hat).
  - reflexivity.
  - repeat constructor.
  - eexists. split; [vm_compute; reflexivity|reflexivity].
  - reflexivity.
  - repeat constructor; vm_compute; eauto.
  - destruct (Hat 0%nat 3 eq_refl) as (b & Hb & Hpb).
    exists w', lr, res, b. repeat split; try done.
    exact (Hat 1%nat 9 eq_refl).
Defined.

Lemma getbugfields_appends_witness :
  ∃ w' l,
    _getbugfields (sample_proxy sample_fields_response) (World ∅ [])
    = (w', Return (VRef l)) ∧
    w_heap w' !! l
    = Some (OList [VStr "summary"; VStr "status"; VStr "blockedby"]).
Proof.
  destruct (getbugfields_appends (sample_proxy sample_fields_response)
              (World ∅ []) sample_fields_response sample_fields
              [WStr "summary"; WStr "status"])
    as (w' & l & names & Hrun & Hl & Hnames & _).
  - eexists. split; [vm_compute; reflexivity|reflexivity].
  - reflexivity.
  - repeat constructor.
  - exists w', l. split; [exact Hrun|].
    inversion Hnames as [|? v1 ? names1 Hv1 Hrest1]; subst.
    inversion Hrest1 as [|? v2 ? names2 Hv2 Hrest2]; subst.
    inversion Hrest2; subst. inversion Hv1; subst. inversion Hv2; subst.
    exact Hl.
Defined.

(** With a remote field that is itself called [blockedby], the list
    [_getbugfields] returns holds ['blockedby'] twice, not once. *)
Lemma getbugfields_blockedby_twice :
  ∃ w' l res,
    _getbugfields (sample_proxy blockedby_fields_response) (World ∅ [])
    = (w', Return (VRef l)) ∧
    w_heap w' !! l = Some (OList res) ∧
    length (filter (λ v, v = VStr "blockedby") res) = 2%nat.
Proof.
  eexists _, _, [VStr "blockedby"; VStr "blockedby"].
  split; [vm_compute; reflexivity|]. split; [vm_compute; reflexivity|].
  reflexivity.
Qed.

Lemma query_bug_id_normalized_witness :
  ∃ h' d' lp,
    w_calls (_query (sample_proxy sample_search_response) sample_repr
               (VRef 1) (World sample_query_heap [])).1
      = [RpcCall Bug_search (VRef 1) h'] ∧
    h' !! 1%positive = Some (ODict d') ∧
    d' !! "bug_id" = None ∧
    d' !! "id" = Some (VRef lp) ∧
    h' !! lp = Some (OList [VStr "1"; VStr "2"; VStr "3"]).
Proof.
  destruct (query_bug_id_normalized (sample_proxy sample_search_response)
              sample_repr sample_query_heap [] 1%positive sample_query_dict
              (VStr "1,2,3"))
    as (h' & d' & Hcalls & Hq & Hb & lp & Hid & _ & Hlp & _).
  - reflexivity.
  - reflexivity.
  - vm_compute. exact I.
  - vm_compute. exact I.
  - exists h', d', lp. repeat split; assumption.
Defined.

Lemma query_include_fields_witness :
  ∃ h' d',
    w_calls (_query (sample_proxy sample_search_response) sample_repr
               (VRef 1) (World sample_columns_heap [])).1
      = [RpcCall Bug_search (VRef 1) h'] ∧
    h' !! 1%positive = Some (ODict d') ∧
    d' !! "include_fields" = Some (VRef 2) ∧
    d' !! "column_list" = None ∧
    h' !! 2%positive = Some (OList [VStr "summary"; VStr "blocks"]).
Proof.
  destruct (query_include_fields (sample_proxy sample_search_response)
              sample_repr sample_columns_heap [] 1%positive sample_columns_dict)
    as (h' & d' & vf & Hcalls & Hq & Hinc & Hcl & Hfields).
  - reflexivity.
  - vm_compute. exact I.
  - vm_compute. eexists. reflexivity.
  - change (sample_columns_dict !! "column_list") with (Some (VRef 2)) in Hfields.
    destruct Hfields as [-> Hlist].
    destruct (Hlist 2%positive [VStr "blockedby"; VStr "summary"] eq_refl eq_refl)
      as [Hl _].
    exists h', d'. repeat split; assumption.
Defined.

Lemma sample_bugs_ok : Forall record_ok sample_bugs.
Proof.
  repeat constructor; try (eexists; reflexivity);
    intros tx Hx; vm_compute in Hx; try discriminate Hx;
    injection Hx as <-; vm_compute; eauto.
Qed.

Lemma sample_query_answered :
  answered (sample_proxy sample_search_response)
    (_query (sample_proxy sample_search_response) sample_repr (VRef 1)
       (World sample_query_heap [])).1 sample_search_response.
Proof. eexists. split; [vm_compute; reflexivity|reflexivity]. Qed.

Lemma sample_query_normalized :
  query_normalize (VRef 1) (World sample_query_heap [])
  = ((query_normalize (VRef 1) (World sample_query_heap [])).1, Return tt).
Proof. vm_compute. reflexivity. Qed.

Lemma query_flags_joined_witness :
  ∃ w' lr dr lb b bs d',
    _query (sample_proxy sample_search_response) sample_repr (VRef 1)
      (World sample_query_heap []) = (w', Return (VRef lr)) ∧
    w_heap w' !! lr = Some (ODict dr) ∧
    dr !! "bugs" = Some (VRef lb) ∧
    w_heap w' !! lb = Some (OList (VRef b :: bs)) ∧
    w_heap w' !! b = Some (ODict d') ∧
    d' !! "flags" = Some (VStr "review+").
Proof.
  destruct (query_flags_joined (sample_proxy sample_search_response) sample_repr
              sample_query_heap [] 1%positive _ sample_search_response sample_bugs
              sample_query_normalized sample_query_answered eq_refl sample_bugs_ok)
    as (w' & lr & dr & lb & bs & Hrun & Hlr & Hdr & Hlb & Hbs).
  inversion Hbs as [|rec b recs' bs' Hb Hrest]; subst.
  destruct Hb as (l & d' & -> & Hl & Hflags).
  destruct Hflags as (s & Hs & Hflags). injection Hs as <-.
  exists w', lr, dr, lb, l, bs', d'. repeat split; assumption.
Defined.

Lemma query_blockedby_derived_witness :
  ∃ w' lr dr lb b1 b2 bs d1 d2,
    _query (sample_proxy sample_search_response) sample_repr (VRef 1)
      (World sample_query_heap []) = (w', Return (VRef lr)) ∧
    w_heap w' !! lr = Some (ODict dr) ∧
    dr !! "bugs" = Some (VRef lb) ∧
    w_heap w' !! lb = Some (OList (VRef b1 :: VRef b2 :: bs)) ∧
    w_heap w' !! b1 = Some (ODict d1) ∧
    d1 !! "blockedby" = Some (VStr "5,6") ∧
    w_heap w' !! b2 = Some (ODict d2) ∧
    d2 !! "blockedby" = Some (VStr "").
Proof.
  destruct (query_blockedby_derived (sample_proxy sample_search_response)
              sample_repr sample_query_heap [] 1%positive _
              sample_search_response sample_bugs
              sample_query_normalized sample_query_answered eq_refl sample_bugs_ok)
    as (w' & lr & dr & lb & bs & Hrun & Hlr & Hdr & Hlb & Hbs).
  inversion Hbs as [|rec1 b1 recs1 bs1 Hb1 Hrest1]; subst.
  inversion Hrest1 as [|rec2 b2 recs2 bs2 Hb2 Hrest2]; subst.
  destruct Hb1 as (l1 & d1 & -> & Hl1 & s1 & Hs1 & Hd1 & _).
  destruct Hb2 as (l2 & d2 & -> & Hl2 & s2 & Hs2 & Hd2 & _).
  injection Hs1 as <-. injection Hs2 as <-.
  exists w', lr, dr, lb, l1, l2, bs2, d1, d2. repeat split; assumption.
Defined.

Lemma query_empty_flags_witness :
  ∃ w' lr dr lb b1 b2 bs d2,
    _query (sample_proxy sample_search_response) sample_repr (VRef 1)
      (World sample_query_heap []) = (w', Return (VRef lr)) ∧
    w_heap w' !! lr = Some (ODict dr) ∧
    dr !! "bugs" = Some (VRef lb) ∧
    w_heap w' !! lb = Some (OList (b1 :: VRef b2 :: bs)) ∧
    w_heap w' !! b2 = Some (ODict d2) ∧
    d2 !! "flags" = Some (VStr "").
Proof.
  destruct (query_empty_flags (sample_proxy sample_search_response)
              sample_repr sample_query_heap [] 1%positive _
              sample_search_response sample_bugs
              sample_query_normalized sample_query_answered eq_refl sample_bugs_ok)
    as (w' & lr & dr & lb & bs & Hrun & Hlr & Hdr & Hlb & Hbs).
  inversion Hbs as [|rec1 b1 recs1 bs1 Hb1 Hrest1]; subst.
  inversion Hrest1 as [|rec2 b2 recs2 bs2 Hb2 Hrest2]; subst.
  destruct Hb2 as (l2 & d2 & -> & Hl2 & Hd2).
  exists w', lr, dr, lb, b1, l2, bs2, d2. repeat split; try assumption.
  apply Hd2. reflexivity.
Defined.
